(** * hubot-urban-airship-connect: a shallow embedding of the bot script

    The script [src/hubot-urban-airship-connect.js] keeps one mutable
    stream configuration (an [objectstate] document), one output selector
    (a JS [Set] of dot paths), and reacts to chat commands matched by
    anchored regular expressions.  JSON values are modelled as a tagged
    variant; JS objects keep their key order as association lists. *)

From Stdlib Require Import String Ascii List ZArith Bool Lia.
Import ListNotations.
Open Scope list_scope.
Open Scope string_scope.
Set Warnings "-register-all".

(** ** JSON values *)

(** A JS number is written as a decimal [m * 10^-e]; the decimal strings the
    commands parse are represented exactly (no binary rounding). *)
Inductive jval : Type :=
| JNull
| JBool (b : bool)
| JNum (m : Z) (e : nat)
| JStr (s : string)
| JArr (l : list jval)
| JObj (kv : list (string * jval)).

(** ** Character and string helpers *)

Definition chr (n : nat) : string := String (ascii_of_nat n) EmptyString.

Definition is_digit (c : ascii) : bool :=
  let n := nat_of_ascii c in (Nat.leb 48 n && Nat.leb n 57)%bool.

Definition is_word (c : ascii) : bool :=
  let n := nat_of_ascii c in
  (is_digit c || (Nat.leb 65 n && Nat.leb n 90) || (Nat.leb 97 n && Nat.leb n 122)
   || Nat.eqb n 95)%bool.

Definition is_line_terminator (c : ascii) : bool :=
  (Nat.eqb (nat_of_ascii c) 10 || Nat.eqb (nat_of_ascii c) 13)%bool.

Definition is_space (c : ascii) : bool :=
  let n := nat_of_ascii c in
  (Nat.eqb n 32 || Nat.eqb n 9 || Nat.eqb n 10 || Nat.eqb n 11 || Nat.eqb n 12
   || Nat.eqb n 13)%bool.

Definition lower (c : ascii) : ascii :=
  let n := nat_of_ascii c in
  if (Nat.leb 65 n && Nat.leb n 90)%bool then ascii_of_nat (n + 32) else c.

Fixpoint join (sep : string) (l : list string) : string :=
  match l with
  | [] => ""
  | [x] => x
  | x :: xs => x ++ sep ++ join sep xs
  end.

(** [String.prototype.split] on a one-character separator. *)
Fixpoint split_on (sep : ascii) (s : string) : list string :=
  match s with
  | EmptyString => [""]
  | String c rest =>
      let parts := split_on sep rest in
      if Ascii.eqb c sep then "" :: parts
      else match parts with
           | p :: ps => String c p :: ps
           | [] => [String c ""]
           end
  end.

Definition split_dot (s : string) : list string := split_on "."%char s.

Fixpoint take_while (f : ascii -> bool) (s : string) : string * string :=
  match s with
  | EmptyString => ("", "")
  | String c rest =>
      if f c then let (a, b) := take_while f rest in (String c a, b)
      else ("", s)
  end.

Fixpoint drop_while (f : ascii -> bool) (s : string) : string :=
  match s with
  | EmptyString => EmptyString
  | String c rest => if f c then drop_while f rest else s
  end.

Definition str_rev (s : string) : string :=
  string_of_list_ascii (rev (list_ascii_of_string s)).

(** [String.prototype.trim] on ASCII white space. *)
Definition trim (s : string) : string :=
  str_rev (drop_while is_space (str_rev (drop_while is_space s))).

Fixpoint digits_value (s : string) (acc : Z) : Z :=
  match s with
  | EmptyString => acc
  | String c rest => digits_value rest (acc * 10 + Z.of_nat (nat_of_ascii c - 48))
  end.

Fixpoint show_N_aux (fuel : nat) (n : N) (acc : string) : string :=
  match fuel with
  | O => acc
  | S f =>
      let acc' := String (ascii_of_N (48 + N.modulo n 10)) acc in
      if (N.div n 10 =? 0)%N then acc' else show_N_aux f (N.div n 10) acc'
  end.

Definition show_N (n : N) : string := show_N_aux (S (N.to_nat (N.size n))) n "".

(** ** JS numbers *)

(** Trailing zeros of the fraction are dropped, as [Number] does. *)
Fixpoint num_normalize (fuel : nat) (m : Z) (e : nat) : Z * nat :=
  match fuel, e with
  | S f, S e' => if (Z.rem m 10 =? 0)%Z then num_normalize f (Z.quot m 10) e' else (m, e)
  | _, _ => (m, e)
  end.

Definition mk_num (m : Z) (e : nat) : jval :=
  let (m', e') := num_normalize e m e in JNum m' e'.

Definition pad_left (n : nat) (s : string) : string :=
  let fix zeros k := match k with O => "" | S k' => "0" ++ zeros k' end in
  zeros (n - String.length s) ++ s.

(** [String(x)] of a JS number. *)
Definition show_num (m : Z) (e : nat) : string :=
  let (m', e') := num_normalize e m e in
  let sign := if (m' <? 0)%Z then "-" else "" in
  let ds := show_N (Z.abs_N m') in
  match e' with
  | O => sign ++ ds
  | S _ =>
      let ds' := pad_left (S e') ds in
      let k := String.length ds' - e' in
      sign ++ substring 0 k ds' ++ "." ++ substring k e' ds'
  end.

(** ** JS objects as association lists *)

Fixpoint assoc_get (k : string) (kv : list (string * jval)) : option jval :=
  match kv with
  | [] => None
  | (k', v) :: rest => if String.eqb k k' then Some v else assoc_get k rest
  end.

Definition assoc_mem (k : string) (kv : list (string * jval)) : bool :=
  match assoc_get k kv with Some _ => true | None => false end.

(** Assignment keeps an existing key in place and appends a new one. *)
Fixpoint assoc_set (k : string) (v : jval) (kv : list (string * jval))
  : list (string * jval) :=
  match kv with
  | [] => [(k, v)]
  | (k', v') :: rest =>
      if String.eqb k k' then (k', v) :: rest else (k', v') :: assoc_set k v rest
  end.

Fixpoint assoc_del (k : string) (kv : list (string * jval)) : list (string * jval) :=
  match kv with
  | [] => []
  | (k', v') :: rest => if String.eqb k k' then assoc_del k rest else (k', v') :: assoc_del k rest
  end.

(** A canonical array index ("0", "1", ... without leading zeros). *)
Definition array_index (k : string) : option nat :=
  match k with
  | EmptyString => None
  | String c rest =>
      if (forallb is_digit (list_ascii_of_string k)
          && (negb (Ascii.eqb c "0"%char) || String.eqb rest ""))%bool
      then Some (Z.to_nat (digits_value k 0)) else None
  end.

(** Writing index [i] of an array: in range it replaces, past the end the
    array grows (the holes serialize as [null]). *)
Definition list_put (i : nat) (x : jval) (l : list jval) : list jval :=
  if Nat.ltb i (List.length l) then firstn i l ++ x :: skipn (S i) l
  else l ++ repeat JNull (i - List.length l) ++ [x].

Definition list_del (i : nat) (l : list jval) : list jval := firstn i l ++ skipn (S i) l.

(** ** Key paths over documents

    [objectstate] addresses the document with dotted key paths;
    [dotpather] resolves the output selector's dot paths against event
    records.  Both are dependencies, not code of this repository; their
    walk is modelled from the spec (Path Lookup, §4.1 [get]/[set]/[remove]):
    objects are entered by key, arrays by canonical index, anything else is
    absent. *)

Definition child (k : string) (d : jval) : option jval :=
  match d with
  | JObj kv => assoc_get k kv
  | JArr l => match array_index k with Some i => nth_error l i | None => None end
  | _ => None
  end.

Fixpoint jget (p : list string) (d : jval) : option jval :=
  match p with
  | [] => Some d
  | k :: ks => match child k d with Some c => jget ks c | None => None end
  end.

Definition or_container (o : option jval) : jval :=
  match o with Some c => c | None => JObj [] end.

(** [set] creates the missing intermediate containers (as objects); a
    non-index key on an array is a property JSON does not carry. *)
Fixpoint jset (p : list string) (v : jval) (d : jval) : jval :=
  match p with
  | [] => v
  | k :: ks =>
      match d with
      | JObj kv => JObj (assoc_set k (jset ks v (or_container (assoc_get k kv))) kv)
      | JArr l =>
          match array_index k with
          | Some i => JArr (list_put i (jset ks v (or_container (nth_error l i))) l)
          | None => d
          end
      | _ => JObj [(k, jset ks v (JObj []))]
      end
  end.

(** [remove] reports whether something was removed. *)
Fixpoint jremove (p : list string) (d : jval) : bool * jval :=
  match p with
  | [] => (false, d)
  | [k] =>
      match d with
      | JObj kv => if assoc_mem k kv then (true, JObj (assoc_del k kv)) else (false, d)
      | JArr l =>
          match array_index k with
          | Some i => if Nat.ltb i (List.length l) then (true, JArr (list_del i l)) else (false, d)
          | None => (false, d)
          end
      | _ => (false, d)
      end
  | k :: ks =>
      match d with
      | JObj kv =>
          match assoc_get k kv with
          | Some c => let (b, c') := jremove ks c in
                      if b then (true, JObj (assoc_set k c' kv)) else (false, d)
          | None => (false, d)
          end
      | JArr l =>
          match array_index k with
          | Some i =>
              match nth_error l i with
              | Some c => let (b, c') := jremove ks c in
                          if b then (true, JArr (list_put i c' l)) else (false, d)
              | None => (false, d)
              end
          | None => (false, d)
          end
      | _ => (false, d)
      end
  end.

(** ** [JSON.stringify] and template rendering *)

Definition dq : string := chr 34.
Definition bs : string := chr 92.

(** String quoting; escapes of the quote, the backslash and the ASCII line
    breaks. *)
Fixpoint escape (s : string) : string :=
  match s with
  | EmptyString => ""
  | String c rest =>
      let n := nat_of_ascii c in
      (if Nat.eqb n 34 then bs ++ dq
       else if Nat.eqb n 92 then bs ++ bs
       else if Nat.eqb n 10 then bs ++ "n"
       else if Nat.eqb n 13 then bs ++ "r"
       else String c "") ++ escape rest
  end.

Definition quote (s : string) : string := dq ++ escape s ++ dq.

Fixpoint stringify (v : jval) : string :=
  match v with
  | JNull => "null"
  | JBool true => "true"
  | JBool false => "false"
  | JNum m e => show_num m e
  | JStr s => quote s
  | JArr l => "[" ++ join "," (map stringify l) ++ "]"
  | JObj kv =>
      "{" ++ join "," (map (fun kx => quote (fst kx) ++ ":" ++ stringify (snd kx)) kv) ++ "}"
  end.

(** [typeof value === 'object'] *)
Definition typeof_object (v : jval) : bool :=
  match v with JNull | JArr _ | JObj _ => true | _ => false end.

(** [`${value}`] (an array joins its elements' strings, [null] inside an
    array renders empty). *)
Fixpoint template (v : jval) : string :=
  match v with
  | JNull => "null"
  | JBool true => "true"
  | JBool false => "false"
  | JNum m e => show_num m e
  | JStr s => s
  | JArr l => join "," (map (fun x => match x with JNull => "" | _ => template x end) l)
  | JObj _ => "[object Object]"
  end.

(** ** The bot's state and its effects

    [doc] is the [objectstate] document, [output] the selector [Set] (in
    insertion order), [emitted] every snapshot the document stream has
    emitted on [data] (the observers [saveState], the Connect stream and the
    acknowledgement broadcaster all receive each of them), [replies] the
    [res.send] messages to the requester. *)
Record St : Type := mkSt {
  doc : jval;
  output : list string;
  emitted : list jval;
  replies : list string
}.

Inductive res (A : Type) : Type :=
| Ok (a : A)
| Throw (err : string).
Arguments Ok {A} a.
Arguments Throw {A} err.

(** The flag is [true] while a [state.wait] transaction runs. *)
Definition M (A : Type) : Type := bool -> St -> res A * St.

Definition ret {A} (a : A) : M A := fun _ s => (Ok a, s).

Definition bind {A B} (m : M A) (k : A -> M B) : M B :=
  fun w s => match m w s with
             | (Ok a, s') => k a w s'
             | (Throw e, s') => (Throw e, s')
             end.

Notation "x <- m ;; k" := (bind m (fun x => k))
  (at level 61, m at next level, right associativity).
Notation "m ;;; k" := (bind m (fun _ => k))
  (at level 61, right associativity).

Definition throw {A} (e : string) : M A := fun _ s => (Throw e, s).

Definition send (msg : string) : M unit :=
  fun _ s => (Ok tt, mkSt (doc s) (output s) (emitted s) (replies s ++ [msg])).

Definition set_output (o : list string) : M unit :=
  fun _ s => (Ok tt, mkSt (doc s) o (emitted s) (replies s)).

Definition get_output : M (list string) := fun _ s => (Ok (output s), s).

Definition emit_now (s : St) : St :=
  mkSt (doc s) (output s) (emitted s ++ [doc s]) (replies s).

(** *** [objectstate], modelled from the spec (§4.1) *)

Definition put_doc (d : jval) (s : St) : St := mkSt d (output s) (emitted s) (replies s).

(** [state.state()] *)
Definition st_state : M jval := fun _ s => (Ok (doc s), s).

(** [state.get(keypath)] *)
Definition st_get (kp : string) : M (option jval) :=
  fun _ s => (Ok (jget (split_dot kp) (doc s)), s).

(** [state.set(keypath, value)]: one notification, unless inside [wait]. *)
Definition st_set (kp : string) (v : jval) : M unit :=
  fun w s => let s' := put_doc (jset (split_dot kp) v (doc s)) s in
             (Ok tt, if w then s' else emit_now s').

(** [state.remove(keypath)]: a notification only when something was removed. *)
Definition st_remove (kp : string) : M bool :=
  fun w s => let (b, d') := jremove (split_dot kp) (doc s) in
             let s' := put_doc d' s in
             (Ok b, if (b && negb w)%bool then emit_now s' else s').

(** [state.wait(fn)]: the steps run silently, then one notification. *)
Definition st_wait (body : M unit) : M unit :=
  fun w s => match body true s with
             | (Ok a, s') => (Ok a, if w then s' else emit_now s')
             | (Throw e, s') => (Throw e, s')
             end.

(** [state.write(data)]: the whole document is replaced, one notification. *)
Definition st_write (d : jval) : M unit :=
  fun w s => let s' := put_doc d s in (Ok tt, if w then s' else emit_now s').

(** ** Constants of the script *)

Definition bytes (l : list nat) : string := string_of_list_ascii (map ascii_of_nat l).

Definition thumbs : string := bytes [240; 159; 145; 141].
Definition sad : string := bytes [240; 159; 152; 158].
Definition sailboat : string := bytes [226; 155; 181].
Definition eyes : string := bytes [240; 159; 145; 128].

Definition FILTER_KEYS : list string :=
  ["device_types"; "notifications"; "devices"; "types"; "latency"].

Definition EVENT_TYPES : list string :=
  ["PUSH_BODY"; "CUSTOM"; "TAG_CHANGE"; "FIRST_OPEN"; "UNINSTALL"; "RICH_DELIVERY";
   "RICH_READ"; "RICH_DELETE"; "IN_APP_MESSAGE_EXPIRATION"; "IN_APP_MESSAGE_RESOLUTION";
   "IN_APP_MESSAGE_DISPLAY"; "SEND"].

Definition DEVICE_TYPES : list string := ["ios"; "android"; "amazon"].

Definition DEFAULT_OUTPUT : list string :=
  ["device.named_user_id"; "device.ios_channel"; "device.android_channel";
   "device.amazon_channel"; "type"; "body"].

(** [FILTERS]: filter key to its allowed values. *)
Definition FILTERS : list (string * list string) :=
  [("device_types", DEVICE_TYPES); ("types", EVENT_TYPES)].

Definition set_has (l : list string) (x : string) : bool := existsb (String.eqb x) l.

Definition filters_get (k : string) : option (list string) :=
  match find (fun p => String.eqb k (fst p)) FILTERS with
  | Some (_, a) => Some a
  | None => None
  end.

Definition DEFAULT_STATE : jval :=
  JObj [("filters", JArr [JObj [("device_types", JArr (map JStr DEVICE_TYPES));
                                ("types", JArr (map JStr EVENT_TYPES))]]);
        ("start", JStr "LATEST")].

(** ** JS built-ins the handlers call *)

Definition type_error (what : string) : string := "TypeError: " ++ what.

(** [x || []] *)
Definition or_empty (o : option jval) : jval :=
  match o with
  | None | Some JNull | Some (JBool false) | Some (JStr "") => JArr []
  | Some (JNum m _) => if (m =? 0)%Z then JArr [] else JNum m 0
  | Some v => v
  end.

(** [===] against a string *)
Definition strict_eq_str (x : jval) (s : string) : bool :=
  match x with JStr t => String.eqb t s | _ => false end.

Fixpoint index_in (l : list jval) (s : string) (i : Z) : Z :=
  match l with
  | [] => (-1)%Z
  | x :: xs => if strict_eq_str x s then i else index_in xs s (i + 1)
  end.

(** [v.indexOf(s)]: arrays search elements, strings search substrings. *)
Definition js_index_of (v : jval) (s : string) : M Z :=
  match v with
  | JArr l => ret (index_in l s 0)
  | JStr t => ret (match index 0 s t with Some n => Z.of_nat n | None => (-1)%Z end)
  | _ => throw (type_error "currentFilters.indexOf is not a function")
  end.

(** [v.concat(s)] *)
Definition js_concat (v : jval) (s : string) : M jval :=
  match v with
  | JArr l => ret (JArr (l ++ [JStr s]))
  | JStr t => ret (JStr (t ++ s))
  | _ => throw (type_error "currentFilters.concat is not a function")
  end.

(** [v.filter(f => f !== s)] *)
Definition js_filter_ne (v : jval) (s : string) : M jval :=
  match v with
  | JArr l => ret (JArr (filter (fun x => negb (strict_eq_str x s)) l))
  | _ => throw (type_error "currentFilters.filter is not a function")
  end.

Fixpoint indices (n : nat) : list string :=
  match n with O => [] | S k => indices k ++ [show_N (N.of_nat k)] end.

(** [Object.keys(v)] *)
Definition object_keys (o : option jval) : M (list string) :=
  match o with
  | None | Some JNull => throw (type_error "Cannot convert undefined or null to object")
  | Some (JObj kv) => ret (map fst kv)
  | Some (JArr l) => ret (indices (List.length l))
  | Some (JStr t) => ret (indices (String.length t))
  | Some _ => ret []
  end.

(** [Number(str)] on a capture of [\d*(\.\d+)?]: the empty string is 0. *)
Definition js_number (cap : string) : jval :=
  let (ip, rest) := take_while is_digit cap in
  let fp := match rest with String _ f => f | EmptyString => "" end in
  mk_num (digits_value (ip ++ fp) 0) (String.length fp).

(** [parseInt(str, 10)] on a capture of [\d+] *)
Definition parse_int (cap : string) : Z := digits_value cap 0.

(** JS [Set] from a list: first occurrences in order. *)
Fixpoint dedup (l : list string) : list string :=
  match l with
  | [] => []
  | x :: xs => x :: filter (fun y => negb (String.eqb x y)) (dedup xs)
  end.

(** ** The command handlers, in the order the script registers them *)

Definition updated : string := thumbs ++ " output settings updated".

(** [/^!reset/i] *)
Definition h_reset : M unit :=
  set_output DEFAULT_OUTPUT ;;; st_write DEFAULT_STATE.

(** [/^!set output <rest of the line>/i] *)
Definition h_set_output (cap : string) : M unit :=
  set_output (dedup (map trim (split_on ","%char cap))) ;;; send updated.

(** [/^!show <rest of the line>/i] *)
Definition h_show (dotpath : string) : M unit :=
  o <- get_output ;;
  if set_has o dotpath then send (sad ++ " already showing " ++ dotpath)
  else set_output (o ++ [dotpath]) ;;; send updated.

(** [/^!hide <rest of the line>/i] *)
Definition h_hide (dotpath : string) : M unit :=
  o <- get_output ;;
  if negb (set_has o dotpath) then send (sad ++ " not showing " ++ dotpath)
  else set_output (filter (fun y => negb (String.eqb dotpath y)) o) ;;; send updated.

(** The JSON parser the [!set current] handler calls. *)
Definition parse_result : Type := (string + jval)%type.

(** [/^!set current <rest of the line>$/i] *)
Definition h_set_current (json_parse : string -> parse_result) (payload : string) : M unit :=
  match json_parse payload with
  | inl msg => send (sad ++ " error parsing JSON: " ++ msg)
  | inr data => st_write data
  end.

(** [/^!current/i] *)
Definition h_current : M unit :=
  d <- st_state ;;
  o <- get_output ;;
  send (sailboat ++ " " ++ stringify d) ;;;
  send (eyes ++ " " ++ join ", " o).

(** [/^!set start (\w+)/i] *)
Definition h_set_start (tok : string) : M unit :=
  st_wait (st_remove "resume_offset" ;;; st_set "start" (JStr tok)).

(** [/^!set resume_offset (\d+)/i]: the capture [res.match[1]] is stored. *)
Definition h_set_resume_offset (cap : string) : M unit :=
  st_wait (st_remove "start" ;;; st_set "resume_offset" (JStr cap)).

Definition num_lt_0 (p : jval) : bool :=
  match p with JNum m _ => (m <? 0)%Z | _ => false end.

Definition num_gt_1 (p : jval) : bool :=
  match p with JNum m e => (10 ^ Z.of_nat e <? m)%Z | _ => false end.

Definition h_sample_value (proportion : jval) : M unit :=
  if (num_lt_0 proportion || num_gt_1 proportion)%bool then
    send (sad ++ " invalid proportion value: " ++ template proportion)
  else st_set "subset" (JObj [("type", JStr "SAMPLE"); ("proportion", proportion)]).

(** [/^!set subset sample (\d*(\.\d+)?)/i] *)
Definition h_sample (cap : string) : M unit := h_sample_value (js_number cap).

Definition h_partition_values (count selection : Z) : M unit :=
  if (count <? 1)%Z then send (sad ++ " count cannot be less than 1")
  else if (count <? selection)%Z then send (sad ++ " selection cannot be larger than count")
  else st_set "subset" (JObj [("type", JStr "PARTITION"); ("count", JNum count 0);
                              ("selection", JNum selection 0)]).

(** [/^!set subset partition (\d+) (\d+)/i] *)
Definition h_partition (c s : string) : M unit :=
  h_partition_values (parse_int c) (parse_int s).

(** [/^!clear subset/i] *)
Definition h_clear_subset : M unit := st_remove "subset" ;;; ret tt.

(** [/^!filters clear (\w+)/i] *)
Definition h_filters_clear (filterType : string) : M unit :=
  if set_has FILTER_KEYS filterType then send (sad ++ " invalid filter type " ++ filterType)
  else
    removed <- st_remove ("filters.0." ++ filterType) ;;
    if removed then ret tt
    else
      f0 <- st_get "filters.0" ;;
      keys <- object_keys f0 ;;
      let available := join ", " (filter (set_has FILTER_KEYS) keys) in
      send (sad ++ " no filters defined for " ++ filterType ++ ". available filters: "
            ++ available).

(** [/^!filters (add|remove) (\w+) (\w+)/i] *)
Definition h_filters (operation filterType filter : string) : M unit :=
  match filters_get filterType with
  | None => send (sad ++ " invalid filter type " ++ filterType)
  | Some allowed =>
      if negb (set_has allowed filter) then send (sad ++ " invalid " ++ filterType ++ ": " ++ filter)
      else
        let filterKeypath := "filters.0." ++ filterType in
        cur <- st_get filterKeypath ;;
        let currentFilters := or_empty cur in
        if String.eqb operation "add" then
          i <- js_index_of currentFilters filter ;;
          if negb (i =? -1)%Z then send (sad ++ " " ++ filterType ++ " filter already includes " ++ filter)
          else c <- js_concat currentFilters filter ;; st_set filterKeypath c
        else if String.eqb operation "remove" then
          i <- js_index_of currentFilters filter ;;
          if (i =? -1)%Z then send (sad ++ " " ++ filterType ++ " filter does not include " ++ filter)
          else c <- js_filter_ne currentFilters filter ;; st_set filterKeypath c
        else ret tt
  end.

(** ** Listener patterns

    Each pattern is anchored with [^] and case-insensitive ([/i]); a
    listener yields the handler call with its captures when its pattern
    matches the message. *)

Fixpoint prefix_ci (lit s : string) : option string :=
  match lit, s with
  | EmptyString, _ => Some s
  | String a lit', String b s' =>
      if Ascii.eqb (lower a) (lower b) then prefix_ci lit' s' else None
  | String _ _, EmptyString => None
  end.

(** [(\w+)] or [(\d+)]: greedy, non-empty. *)
Definition plus (f : ascii -> bool) (s : string) : option (string * string) :=
  let (a, rest) := take_while f s in
  match a with EmptyString => None | _ => Some (a, rest) end.

(** [(\d*(\.\d+)?)]: always matches, possibly the empty string. *)
Definition decimal_capture (s : string) : string :=
  let (ip, rest) := take_while is_digit s in
  match rest with
  | String c (String d r) =>
      if (Ascii.eqb c "."%char && is_digit d)%bool
      then ip ++ "." ++ fst (take_while is_digit (String d r))
      else ip
  | _ => ip
  end.

Definition listener : Type := string -> option (M unit).

Definition l_reset : listener := fun msg =>
  match prefix_ci "!reset" msg with Some _ => Some h_reset | None => None end.

Definition l_set_output : listener := fun msg =>
  match prefix_ci "!set output " msg with
  | Some r => Some (h_set_output (fst (take_while (fun c => negb (is_line_terminator c)) r)))
  | None => None
  end.

Definition l_show : listener := fun msg =>
  match prefix_ci "!show " msg with
  | Some r => Some (h_show (fst (take_while (fun c => negb (is_line_terminator c)) r)))
  | None => None
  end.

Definition l_hide : listener := fun msg =>
  match prefix_ci "!hide " msg with
  | Some r => Some (h_hide (fst (take_while (fun c => negb (is_line_terminator c)) r)))
  | None => None
  end.

(** The capture must reach the end of the input ([$] without [/m]). *)
Definition l_set_current (json_parse : string -> parse_result) : listener := fun msg =>
  match prefix_ci "!set current " msg with
  | Some r => if existsb is_line_terminator (list_ascii_of_string r) then None
              else Some (h_set_current json_parse r)
  | None => None
  end.

Definition l_current : listener := fun msg =>
  match prefix_ci "!current" msg with Some _ => Some h_current | None => None end.

Definition l_set_start : listener := fun msg =>
  match prefix_ci "!set start " msg with
  | Some r => match plus is_word r with Some (tok, _) => Some (h_set_start tok) | None => None end
  | None => None
  end.

Definition l_set_resume_offset : listener := fun msg =>
  match prefix_ci "!set resume_offset " msg with
  | Some r => match plus is_digit r with
              | Some (cap, _) => Some (h_set_resume_offset cap)
              | None => None
              end
  | None => None
  end.

Definition l_sample : listener := fun msg =>
  match prefix_ci "!set subset sample " msg with
  | Some r => Some (h_sample (decimal_capture r))
  | None => None
  end.

Definition l_partition : listener := fun msg =>
  match prefix_ci "!set subset partition " msg with
  | Some r =>
      match plus is_digit r with
      | Some (c, String sp r') =>
          if Ascii.eqb sp " "%char then
            match plus is_digit r' with
            | Some (sel, _) => Some (h_partition c sel)
            | None => None
            end
          else None
      | _ => None
      end
  | None => None
  end.

Definition l_clear_subset : listener := fun msg =>
  match prefix_ci "!clear subset" msg with Some _ => Some h_clear_subset | None => None end.

Definition l_filters_clear : listener := fun msg =>
  match prefix_ci "!filters clear " msg with
  | Some r => match plus is_word r with Some (k, _) => Some (h_filters_clear k) | None => None end
  | None => None
  end.

(** [(add|remove)] captures the text as typed; the handler compares it
    case-sensitively. *)
Definition l_filters : listener := fun msg =>
  match prefix_ci "!filters " msg with
  | Some r =>
      let op := if prefix_ci "add " r then Some (substring 0 3 r, substring 4 (String.length r) r)
                else if prefix_ci "remove " r then Some (substring 0 6 r, substring 7 (String.length r) r)
                else None in
      match op with
      | Some (o, r1) =>
          match plus is_word r1 with
          | Some (k, String sp r2) =>
              if Ascii.eqb sp " "%char then
                match plus is_word r2 with
                | Some (v, _) => Some (h_filters o k v)
                | None => None
                end
              else None
          | _ => None
          end
      | None => None
      end
  | None => None
  end.

Definition listeners (json_parse : string -> parse_result) : list listener :=
  [l_reset; l_set_output; l_show; l_hide; l_set_current json_parse; l_current;
   l_set_start; l_set_resume_offset; l_sample; l_partition; l_clear_subset;
   l_filters_clear; l_filters].

(** Every listener whose pattern matches runs, in registration order; an
    exception escapes the listener that raised it. *)
Fixpoint run_listeners (ls : list listener) (msg : string) : M unit :=
  match ls with
  | [] => ret tt
  | l :: rest => match l msg with
                 | Some h => h ;;; run_listeners rest msg
                 | None => run_listeners rest msg
                 end
  end.

Definition hear (json_parse : string -> parse_result) (msg : string) : M unit :=
  run_listeners (listeners json_parse) msg.

(** ** A [JSON.parse] for the [!set current] payload

    Standard JSON (RFC 8259) over ASCII: objects, arrays, strings with the
    single-character escapes ([\u] escapes are refused), numbers with
    fraction and exponent, literals; later duplicate keys overwrite earlier
    ones in place, as in JS. *)

Inductive pres (A : Type) : Type :=
| PFail (rest : list ascii)
| POk (a : A) (rest : list ascii).
Arguments PFail {A} rest.
Arguments POk {A} a rest.

Fixpoint skip_ws (l : list ascii) : list ascii :=
  match l with
  | c :: r => if is_space c && negb (Nat.eqb (nat_of_ascii c) 11)
                 && negb (Nat.eqb (nat_of_ascii c) 12) then skip_ws r else l
  | [] => []
  end.

Fixpoint take_digits (l : list ascii) : list ascii * list ascii :=
  match l with
  | c :: r => if is_digit c then let (a, b) := take_digits r in (c :: a, b) else ([], l)
  | [] => ([], [])
  end.

Definition digits_Z (ds : list ascii) : Z := digits_value (string_of_list_ascii ds) 0.

(** After the optional minus sign. *)
Definition pnumber (neg : bool) (l : list ascii) : pres jval :=
  let int_part :=
    match l with
    | c :: r => if Ascii.eqb c "0"%char then Some ([c], r)
                else if is_digit c then Some (take_digits l) else None
    | [] => None
    end in
  match int_part with
  | None => PFail l
  | Some (ip, r1) =>
      let frac :=
        match r1 with
        | c :: r => if Ascii.eqb c "."%char then
                      match take_digits r with ([], _) => None | (fp, r2) => Some (fp, r2) end
                    else Some ([], r1)
        | [] => Some ([], r1)
        end in
      match frac with
      | None => PFail (skipn 1 r1)
      | Some (fp, r2) =>
          let expo :=
            match r2 with
            | c :: r => if (Ascii.eqb c "e"%char || Ascii.eqb c "E"%char)%bool then
                          let '(sgn, r') := match r with
                                           | s :: r'' => if Ascii.eqb s "-"%char then (true, r'')
                                                         else if Ascii.eqb s "+"%char then (false, r'')
                                                         else (false, r)
                                           | [] => (false, r)
                                           end in
                          match take_digits r' with
                          | ([], _) => None
                          | (xs, r3) => Some ((if sgn then - digits_Z xs else digits_Z xs)%Z, r3)
                          end
                        else Some (0%Z, r2)
            | [] => Some (0%Z, r2)
            end in
          match expo with
          | None => PFail (skipn 1 r2)
          | Some (x, r3) =>
              let m := digits_Z (ip ++ fp) in
              let m := if neg then (- m)%Z else m in
              let k := (x - Z.of_nat (List.length fp))%Z in
              if (0 <=? k)%Z then POk (JNum (m * 10 ^ k) 0) r3
              else POk (mk_num m (Z.to_nat (- k))) r3
          end
      end
  end.

Definition unescape (c : ascii) : option ascii :=
  match nat_of_ascii c with
  | 34 => Some c | 92 => Some c | 47 => Some c
  | 98 => Some (ascii_of_nat 8) | 102 => Some (ascii_of_nat 12)
  | 110 => Some (ascii_of_nat 10) | 114 => Some (ascii_of_nat 13)
  | 116 => Some (ascii_of_nat 9)
  | _ => None
  end.

(** After the opening quote. *)
Fixpoint pstring (l : list ascii) : pres string :=
  match l with
  | [] => PFail []
  | c :: r =>
      if Nat.eqb (nat_of_ascii c) 34 then POk "" r
      else if Nat.ltb (nat_of_ascii c) 32 then PFail l
      else if Nat.eqb (nat_of_ascii c) 92 then
        match r with
        | e :: r' => match unescape e with
                     | Some u => match pstring r' with
                                 | POk s r'' => POk (String u s) r''
                                 | PFail x => PFail x
                                 end
                     | None => PFail r
                     end
        | [] => PFail []
        end
      else match pstring r with
           | POk s r'' => POk (String c s) r''
           | PFail x => PFail x
           end
  end.

Definition plit (w : string) (v : jval) (l : list ascii) : pres jval :=
  if String.eqb w (string_of_list_ascii (firstn (String.length w) l)) then
    POk v (skipn (String.length w) l)
  else PFail (skipn 1 l).

Fixpoint pvalue (fuel : nat) (l : list ascii) : pres jval :=
  match fuel with
  | O => PFail l
  | S f =>
      let l := skip_ws l in
      match l with
      | [] => PFail []
      | c :: r =>
          if Nat.eqb (nat_of_ascii c) 123 then
              let fix members (g : nat) (acc : list (string * jval)) (l : list ascii)
                : pres jval :=
                match g with
                | O => PFail l
                | S g' =>
                    match skip_ws l with
                    | q :: r1 =>
                        if Nat.eqb (nat_of_ascii q) 34 then
                          match pstring r1 with
                          | PFail x => PFail x
                          | POk k r2 =>
                              match skip_ws r2 with
                              | col :: r3 =>
                                  if Ascii.eqb col ":"%char then
                                    match pvalue f r3 with
                                    | PFail x => PFail x
                                    | POk v r4 =>
                                        let acc' := assoc_set k v acc in
                                        match skip_ws r4 with
                                        | d :: r5 =>
                                            if Ascii.eqb d ","%char then members g' acc' r5
                                            else if Nat.eqb (nat_of_ascii d) 125 then POk (JObj acc') r5
                                            else PFail (d :: r5)
                                        | [] => PFail []
                                        end
                                    end
                                  else PFail (col :: r3)
                              | [] => PFail []
                              end
                          end
                        else PFail (q :: r1)
                    | [] => PFail []
                    end
                end in
              match skip_ws r with
              | d :: r' => if Nat.eqb (nat_of_ascii d) 125 then POk (JObj []) r'
                           else members f [] r
              | [] => PFail []
              end
          else if Nat.eqb (nat_of_ascii c) 91 then
              let fix elems (g : nat) (acc : list jval) (l : list ascii) : pres jval :=
                match g with
                | O => PFail l
                | S g' =>
                    match pvalue f l with
                    | PFail x => PFail x
                    | POk v r4 =>
                        match skip_ws r4 with
                        | d :: r5 =>
                            if Ascii.eqb d ","%char then elems g' (app acc [v]) r5
                            else if Nat.eqb (nat_of_ascii d) 93 then POk (JArr (app acc [v])) r5
                            else PFail (d :: r5)
                        | [] => PFail []
                        end
                    end
                end in
              match skip_ws r with
              | d :: r' => if Nat.eqb (nat_of_ascii d) 93 then POk (JArr []) r'
                           else elems f [] r
              | [] => PFail []
              end
          else if Nat.eqb (nat_of_ascii c) 34 then
            match pstring r with POk s r' => POk (JStr s) r' | PFail x => PFail x end
          else if Ascii.eqb c "t"%char then plit "true" (JBool true) l
          else if Ascii.eqb c "f"%char then plit "false" (JBool false) l
          else if Ascii.eqb c "n"%char then plit "null" JNull l
          else if Ascii.eqb c "-"%char then pnumber true r
          else pnumber false l
      end
  end.

(** [JSON.parse(text)]: the error is the message of the [SyntaxError]. *)
Definition json_parse (text : string) : parse_result :=
  let l := list_ascii_of_string text in
  let fail rest :=
    match rest with
    | [] => inl "Unexpected end of JSON input"
    | _ => inl ("Unexpected token " ++ string_of_list_ascii (firstn 1 rest) ++ " in JSON at position "
                ++ show_N (N.of_nat (List.length l - List.length rest)))
    end in
  match pvalue (S (List.length l)) l with
  | POk v rest => match skip_ws rest with [] => inr v | rest' => fail rest' end
  | PFail rest => fail rest
  end.

(** ** The running bot

    [setup]: the document and selector come from the brain when present,
    else the defaults; [state.emitState()] emits the initial document. *)
Definition setup (persisted : option jval) (persisted_output : option (list string)) : St :=
  let d := match persisted with Some d => d | None => DEFAULT_STATE end in
  let o := match persisted_output with Some o => dedup o | None => DEFAULT_OUTPUT end in
  mkSt d o [d] [].

(** Messages are handled one after another; an exception raised by a
    listener ends that message's handling and leaves the state it reached. *)
Definition step (msg : string) (s : St) : St := snd (hear json_parse msg false s).

Fixpoint run_msgs (msgs : list string) (s : St) : St :=
  match msgs with
  | [] => s
  | m :: ms => run_msgs ms (step m s)
  end.

(** ** The projection engine: [postToChannel] and [sendToAll] *)

Definition lookup (id : string) (data : jval) : option jval := jget (split_dot id) data.

Definition render_entry (id : string) (data : jval) : string :=
  let value := lookup id data in
  let shown := match value with
               | Some v => if typeof_object v then stringify v else template v
               | None => "undefined"
               end in
  id ++ ": " ++ shown.

Definition is_defined (o : option jval) : bool := match o with Some _ => true | None => false end.

Definition postToChannel_message (output : list string) (data : jval) : string :=
  join ", " (map (fun id => render_entry id data)
                 (filter (fun id => is_defined (lookup id data)) output)).

(** The messages [sendToAll] delivers, one per configured room. *)
Definition sendToAll (rooms : list string) (message : string) : list (string * string) :=
  map (fun room => (room, message)) rooms.

Definition postToChannel (rooms output : list string) (data : jval) : list (string * string) :=
  sendToAll rooms (postToChannel_message output data).

(** ** Properties *)

(** The commands of the start/resume pair, as chat messages. *)
Inductive position_cmd : Type :=
| SetStart (tok : string)
| SetResumeOffset (offset : string).

Definition position_msg (c : position_cmd) : string :=
  match c with
  | SetStart t => "!set start " ++ t
  | SetResumeOffset n => "!set resume_offset " ++ n
  end.

(** Exactly one of [start] and [resume_offset] is a key of the document. *)
Definition exactly_one_position (d : jval) : bool :=
  match d with
  | JObj kv => xorb (assoc_mem "start" kv) (assoc_mem "resume_offset" kv)
  | _ => false
  end.

Definition S0 : St := setup None None.

Lemma assoc_mem_set_same k v kv : assoc_mem k (assoc_set k v kv) = true.
Proof.
  induction kv as [|[k' v'] kv IH]; unfold assoc_mem in *; simpl.
  - now rewrite String.eqb_refl.
  - destruct (String.eqb k k') eqn:E; simpl; rewrite ?E; auto.
Qed.

Lemma assoc_get_set_same k v kv : assoc_get k (assoc_set k v kv) = Some v.
Proof.
  induction kv as [|[k' v'] kv IH]; simpl.
  - now rewrite String.eqb_refl.
  - destruct (String.eqb k k') eqn:E; simpl; rewrite ?E; auto.
Qed.

Lemma assoc_mem_set_other k k' v kv :
  String.eqb k k' = false -> assoc_mem k (assoc_set k' v kv) = assoc_mem k kv.
Proof.
  intros Hne. induction kv as [|[k2 v2] kv IH]; unfold assoc_mem in *; simpl.
  - now rewrite Hne.
  - destruct (String.eqb k' k2) eqn:E; simpl.
    + apply String.eqb_eq in E; subst k2. now rewrite Hne.
    + destruct (String.eqb k k2); auto.
Qed.

Lemma assoc_mem_del k kv : assoc_mem k (assoc_del k kv) = false.
Proof.
  induction kv as [|[k' v'] kv IH]; unfold assoc_mem in *; simpl; auto.
  destruct (String.eqb k k') eqn:E; simpl; rewrite ?E; auto.
Qed.

Lemma assoc_mem_del_other k k' kv :
  String.eqb k k' = false -> assoc_mem k (assoc_del k' kv) = assoc_mem k kv.
Proof.
  intros Hne. induction kv as [|[k2 v2] kv IH]; unfold assoc_mem in *; simpl; auto.
  destruct (String.eqb k' k2) eqn:E; simpl.
  - apply String.eqb_eq in E; subst k2. now rewrite Hne.
  - destruct (String.eqb k k2); auto.
Qed.

(** The transaction of a handler that removes [old] and sets [new]. *)
Definition swap_doc (old new : string) (v : jval) (d : jval) : jval :=
  jset [new] v (snd (jremove [old] d)).

Lemma swap_doc_obj old new v kv :
  String.eqb old new = false ->
  exists kv', swap_doc old new v (JObj kv) = JObj kv' /\
              assoc_mem new kv' = true /\ assoc_mem old kv' = false /\
              assoc_get new kv' = Some v.
Proof.
  intros Hne. unfold swap_doc. simpl.
  destruct (assoc_mem old kv) eqn:Hm; simpl.
  - eexists; split; [reflexivity|]. split; [apply assoc_mem_set_same|]. split.
    + rewrite assoc_mem_set_other by exact Hne. apply assoc_mem_del.
    + apply assoc_get_set_same.
  - eexists; split; [reflexivity|]. split; [apply assoc_mem_set_same|]. split.
    + rewrite assoc_mem_set_other by exact Hne. exact Hm.
    + apply assoc_get_set_same.
Qed.

Lemma h_set_start_run tok s :
  h_set_start tok false s =
  (Ok tt, emit_now (put_doc (swap_doc "resume_offset" "start" (JStr tok) (doc s)) s)).
Proof.
  unfold h_set_start, st_wait, bind, st_remove, st_set, swap_doc. cbn -[jremove jset].
  destruct (jremove ["resume_offset"] (doc s)) as [b d']; rewrite Bool.andb_false_r; reflexivity.
Qed.

Lemma h_set_resume_offset_run cap s :
  h_set_resume_offset cap false s =
  (Ok tt, emit_now (put_doc (swap_doc "start" "resume_offset" (JStr cap) (doc s)) s)).
Proof.
  unfold h_set_resume_offset, st_wait, bind, st_remove, st_set, swap_doc. cbn -[jremove jset].
  destruct (jremove ["start"] (doc s)) as [b d']; rewrite Bool.andb_false_r; reflexivity.
Qed.

Lemma lower_eqb_sym a b : Ascii.eqb (lower a) (lower b) = Ascii.eqb (lower b) (lower a).
Proof.
  destruct (Ascii.eqb (lower a) (lower b)) eqn:E1, (Ascii.eqb (lower b) (lower a)) eqn:E2; auto.
  - apply Ascii.eqb_eq in E1. rewrite E1, Ascii.eqb_refl in E2. discriminate.
  - apply Ascii.eqb_eq in E2. rewrite E2, Ascii.eqb_refl in E1. discriminate.
Qed.

Lemma prefix_ci_self lit r : prefix_ci lit (lit ++ r) = Some r.
Proof. induction lit; simpl; [reflexivity|]. now rewrite Ascii.eqb_refl. Qed.

(** A pattern literal that diverges from the message's fixed head does not
    match, whatever follows. *)
Lemma prefix_ci_diverges lit p r :
  prefix_ci lit p = None -> prefix_ci p lit = None -> prefix_ci lit (p ++ r) = None.
Proof.
  revert p. induction lit as [|a lit IH]; intros p H1 H2.
  - discriminate.
  - destruct p as [|b p]; [discriminate|]. simpl in *.
    rewrite lower_eqb_sym in H2.
    destruct (Ascii.eqb (lower a) (lower b)); auto.
Qed.

Ltac listener_off :=
  rewrite prefix_ci_diverges by reflexivity.

Ltac unfold_listeners :=
  unfold step, hear, listeners, l_reset, l_set_output, l_show, l_hide, l_set_current,
    l_current, l_set_start, l_set_resume_offset, l_sample, l_partition, l_clear_subset,
    l_filters_clear, l_filters; cbn [run_listeners];
  repeat listener_off.

Lemma step_set_start r s :
  step ("!set start " ++ r) s =
  match plus is_word r with
  | Some (tok, _) => emit_now (put_doc (swap_doc "resume_offset" "start" (JStr tok) (doc s)) s)
  | None => s
  end.
Proof.
  unfold_listeners. rewrite prefix_ci_self.
  destruct (plus is_word r) as [[tok rest]|]; [|reflexivity].
  unfold bind. rewrite h_set_start_run. reflexivity.
Qed.

Lemma step_set_resume_offset r s :
  step ("!set resume_offset " ++ r) s =
  match plus is_digit r with
  | Some (cap, _) => emit_now (put_doc (swap_doc "start" "resume_offset" (JStr cap) (doc s)) s)
  | None => s
  end.
Proof.
  unfold_listeners. rewrite prefix_ci_self.
  destruct (plus is_digit r) as [[cap rest]|]; [|reflexivity].
  unfold bind. rewrite h_set_resume_offset_run. reflexivity.
Qed.

Definition position_inv (s : St) : Prop :=
  exactly_one_position (doc s) = true /\
  Forall (fun d => exactly_one_position d = true) (emitted s).

Lemma swap_doc_exactly_one old new v d :
  String.eqb old new = false -> String.eqb new old = false ->
  (new = "start" /\ old = "resume_offset" \/ new = "resume_offset" /\ old = "start") ->
  exactly_one_position d = true ->
  exactly_one_position (swap_doc old new v d) = true.
Proof.
  intros Hne Hne' Hk Hd. destruct d; try discriminate.
  destruct (swap_doc_obj old new v kv Hne) as (kv' & -> & Hn & Ho & _).
  destruct Hk as [[-> ->] | [-> ->]]; simpl; rewrite ?Hn, ?Ho; reflexivity.
Qed.

Lemma position_step c s : position_inv s -> position_inv (step (position_msg c) s).
Proof.
  intros [Hd He]. destruct c as [t | n]; cbv beta iota delta [position_msg].
  - rewrite step_set_start. destruct (plus is_word t) as [[tok ?]|]; [|split; assumption].
    assert (H : exactly_one_position (swap_doc "resume_offset" "start" (JStr tok) (doc s)) = true)
      by (apply swap_doc_exactly_one; auto).
    split; [exact H|]. simpl. apply Forall_app. split; [exact He|]. constructor; auto.
  - rewrite step_set_resume_offset. destruct (plus is_digit n) as [[cap ?]|]; [|split; assumption].
    assert (H : exactly_one_position (swap_doc "start" "resume_offset" (JStr cap) (doc s)) = true)
      by (apply swap_doc_exactly_one; auto).
    split; [exact H|]. simpl. apply Forall_app. split; [exact He|]. constructor; auto.
Qed.

Lemma position_run cs s : position_inv s -> position_inv (run_msgs (map position_msg cs) s).
Proof.
  revert s. induction cs as [|c cs IH]; intros s H; simpl; auto.
  apply IH, position_step, H.
Qed.

(** C1. Starting from the initialized document, after every sequence of
    [!set start <token>] / [!set resume_offset <offset>] messages the
    document has exactly one of the keys [start] and [resume_offset], and
    every snapshot the change stream has emitted (the initial one included)
    has exactly one of them too.  Holding for every sequence, it holds after
    each command of a sequence. *)
Theorem start_resume_mutual_exclusion (cs : list position_cmd) :
  let s := run_msgs (map position_msg cs) S0 in
  exactly_one_position (doc s) = true /\
  Forall (fun d => exactly_one_position d = true) (emitted s).
Proof.
  apply position_run. split; [reflexivity|]. repeat constructor.
Qed.

Lemma take_while_all f d :
  forallb f (list_ascii_of_string d) = true -> take_while f d = (d, "").
Proof.
  induction d as [|c d IH]; simpl; auto.
  intros H. apply andb_prop in H as [Hc Hd]. rewrite Hc, IH by exact Hd. reflexivity.
Qed.

Lemma plus_all f d :
  d <> "" -> forallb f (list_ascii_of_string d) = true -> plus f d = Some (d, "").
Proof.
  intros Hne H. unfold plus. rewrite take_while_all by exact H.
  destruct d; [contradiction | reflexivity].
Qed.

(** C5 (as the code has it: counterexample).  [!set resume_offset 42]
    stores the matched text: [resume_offset] is the string ["42"], not the
    number 42. *)
Lemma resume_offset_not_numeric :
  child "resume_offset" (doc (step "!set resume_offset 42" S0)) <> Some (JNum 42 0) /\
  child "resume_offset" (doc (step "!set resume_offset 42" S0)) = Some (JStr "42").
Proof. vm_compute. split; [discriminate | reflexivity]. Qed.

(** C5 (amended).  For a non-empty digit string [d] (what [\d+] accepts),
    [!set resume_offset d] runs one transaction: [start] is removed and
    [resume_offset] is set to the string [d]; exactly one snapshot is
    emitted, and nothing is sent to the requester. *)
Theorem resume_offset_transaction (d : string) (s : St)
  (Hne : d <> "") (Hdigits : forallb is_digit (list_ascii_of_string d) = true) :
  let s' := step ("!set resume_offset " ++ d) s in
  doc s' = swap_doc "start" "resume_offset" (JStr d) (doc s) /\
  emitted s' = (emitted s ++ [doc s'])%list /\
  replies s' = replies s /\ output s' = output s /\
  (forall kv, doc s = JObj kv ->
     child "start" (doc s') = None /\ child "resume_offset" (doc s') = Some (JStr d)).
Proof.
  cbv zeta. rewrite step_set_resume_offset, (plus_all is_digit d Hne Hdigits). simpl.
  split; [reflexivity|]. split; [reflexivity|]. split; [reflexivity|]. split; [reflexivity|].
  intros kv ->.
  destruct (swap_doc_obj "start" "resume_offset" (JStr d) kv eq_refl)
    as (kv' & -> & _ & Ho & Hg).
  simpl. split; [|exact Hg]. unfold assoc_mem in Ho.
  destruct (assoc_get "start" kv'); [discriminate | reflexivity].
Qed.

Lemma resume_offset_transaction_witness :
  "42" <> "" /\ forallb is_digit (list_ascii_of_string "42") = true /\
  doc (step ("!set resume_offset " ++ "42") S0)
    = swap_doc "start" "resume_offset" (JStr "42") (doc S0).
Proof.
  split; [discriminate|]. split; [reflexivity|].
  apply (resume_offset_transaction "42" S0); [discriminate | reflexivity].
Defined.

Definition sample_policy (p : jval) : jval :=
  JObj [("type", JStr "SAMPLE"); ("proportion", p)].

Definition partition_policy (count selection : Z) : jval :=
  JObj [("type", JStr "PARTITION"); ("count", JNum count 0); ("selection", JNum selection 0)].

(** C3 (code bug).  The handler's range check on the parsed number is
    exactly [0 <= p <= 1], but the pattern [\d*(\.\d+)?] admits no minus
    sign and may capture the empty string, which [Number] turns into 0:
    [!set subset sample -0.01] installs a Sample policy with proportion 0
    and sends no rejection.  [0] and [1] are accepted, [1.01] rejected. *)
Theorem sample_negative_accepted :
  (forall m e s,
     let s' := snd (h_sample_value (JNum m e) false s) in
     if ((0 <=? m) && (m <=? 10 ^ Z.of_nat e))%Z%bool
     then doc s' = jset ["subset"] (sample_policy (JNum m e)) (doc s) /\ replies s' = replies s
     else doc s' = doc s /\ emitted s' = emitted s /\
          List.length (replies s') = S (List.length (replies s))) /\
  child "subset" (doc (step "!set subset sample -0.01" S0)) = Some (sample_policy (JNum 0 0)) /\
  replies (step "!set subset sample -0.01" S0) = [] /\
  child "subset" (doc (step "!set subset sample 0" S0)) = Some (sample_policy (JNum 0 0)) /\
  child "subset" (doc (step "!set subset sample 1" S0)) = Some (sample_policy (JNum 1 0)) /\
  doc (step "!set subset sample 1.01" S0) = doc S0 /\
  replies (step "!set subset sample 1.01" S0) = [sad ++ " invalid proportion value: 1.01"].
Proof.
  split.
  - intros m e s. cbv zeta. unfold h_sample_value, num_lt_0, num_gt_1, st_set, send.
    destruct (0 <=? m)%Z eqn:E1, (m <=? 10 ^ Z.of_nat e)%Z eqn:E2; simpl.
    + apply Z.leb_le in E1. apply Z.leb_le in E2.
      replace (m <? 0)%Z with false by (symmetry; apply Z.ltb_ge; lia).
      replace (10 ^ Z.of_nat e <? m)%Z with false by (symmetry; apply Z.ltb_ge; lia).
      simpl. split; reflexivity.
    + apply Z.leb_gt in E2.
      replace (10 ^ Z.of_nat e <? m)%Z with true by (symmetry; apply Z.ltb_lt; lia).
      rewrite Bool.orb_true_r. simpl. rewrite length_app. simpl. split; [|split]; auto; lia.
    + apply Z.leb_gt in E1.
      replace (m <? 0)%Z with true by (symmetry; apply Z.ltb_lt; lia).
      simpl. rewrite length_app. simpl. split; [|split]; auto; lia.
    + apply Z.leb_gt in E1.
      replace (m <? 0)%Z with true by (symmetry; apply Z.ltb_lt; lia).
      simpl. rewrite length_app. simpl. split; [|split]; auto; lia.
  - vm_compute. repeat split; reflexivity.
Qed.

(** C7.  [!set subset partition c s] accepts exactly when [count >= 1] and
    [selection <= count], setting [subset] to a Partition policy with one
    notification; otherwise it sends one rejection and leaves the document
    and the change stream untouched.  At the boundaries: [1 1] succeeds,
    [3 4] is rejected because the selection exceeds the count, [0 0]
    because the count is below 1. *)
Theorem partition_acceptance :
  (forall count selection s,
     let s'' := snd (h_partition_values count selection false s) in
     if ((1 <=? count) && (selection <=? count))%Z%bool
     then doc s'' = jset ["subset"] (partition_policy count selection) (doc s) /\
          emitted s'' = (emitted s ++ [doc s''])%list /\ replies s'' = replies s
     else doc s'' = doc s /\ emitted s'' = emitted s /\
          List.length (replies s'') = S (List.length (replies s))) /\
  child "subset" (doc (step "!set subset partition 1 1" S0)) = Some (partition_policy 1 1) /\
  doc (step "!set subset partition 3 4" S0) = doc S0 /\
  replies (step "!set subset partition 3 4" S0) = [sad ++ " selection cannot be larger than count"] /\
  doc (step "!set subset partition 0 0" S0) = doc S0 /\
  replies (step "!set subset partition 0 0" S0) = [sad ++ " count cannot be less than 1"].
Proof.
  split.
  - intros count selection s. cbv zeta. unfold h_partition_values, st_set, send.
    destruct (1 <=? count)%Z eqn:E1, (selection <=? count)%Z eqn:E2; simpl.
    + replace (count <? 1)%Z with false by (symmetry; apply Z.ltb_ge; apply Z.leb_le in E1; lia).
      replace (count <? selection)%Z with false
        by (symmetry; apply Z.ltb_ge; apply Z.leb_le in E2; lia).
      simpl. split; [|split]; reflexivity.
    + replace (count <? 1)%Z with false by (symmetry; apply Z.ltb_ge; apply Z.leb_le in E1; lia).
      replace (count <? selection)%Z with true
        by (symmetry; apply Z.ltb_lt; apply Z.leb_gt in E2; lia).
      simpl. rewrite length_app. simpl. split; [|split]; auto; lia.
    + replace (count <? 1)%Z with true by (symmetry; apply Z.ltb_lt; apply Z.leb_gt in E1; lia).
      simpl. rewrite length_app. simpl. split; [|split]; auto; lia.
    + replace (count <? 1)%Z with true by (symmetry; apply Z.ltb_lt; apply Z.leb_gt in E1; lia).
      simpl. rewrite length_app. simpl. split; [|split]; auto; lia.
  - vm_compute. repeat split; reflexivity.
Qed.

(** C2 (code bug).  The guard of [!filters clear] is inverted: for each of
    the five documented filter keys the command answers "invalid filter
    type" and removes nothing; [filters[0][key]] is still there and no
    notification is emitted. *)
Theorem filters_clear_rejects_known_keys :
  Forall (fun k =>
            let s := step ("!filters clear " ++ k) S0 in
            doc s = DEFAULT_STATE /\ emitted s = emitted S0 /\
            replies s = [sad ++ " invalid filter type " ++ k])
         FILTER_KEYS /\
  child "types" (or_container (jget ["filters"; "0"] (doc (step "!filters clear types" S0))))
    = Some (JArr (map JStr EVENT_TYPES)).
Proof.
  split; [repeat constructor; vm_compute; repeat split; reflexivity | vm_compute; reflexivity].
Qed.

(** C8 (code bug).  A document without [filters.0] is reachable with
    [!set current {}]; then the rejection branch of [!filters clear foo]
    calls [Object.keys(undefined)], which throws a [TypeError] instead of
    sending the informational message. *)
Theorem filters_clear_rejection_throws :
  let s1 := step "!set current {}" S0 in
  doc s1 = JObj [] /\
  fst (hear json_parse "!filters clear foo" false s1)
    = Throw (type_error "Cannot convert undefined or null to object") /\
  replies (snd (hear json_parse "!filters clear foo" false s1)) = [].
Proof. vm_compute. repeat split; reflexivity. Qed.

(** The rendering of one selected value. *)
Definition render_value (v : jval) : string :=
  if typeof_object v then stringify v else template v.

Lemma postToChannel_message_entries output data :
  postToChannel_message output data =
  join ", " (flat_map (fun id => match lookup id data with
                                 | Some v => [id ++ ": " ++ render_value v]
                                 | None => []
                                 end) output).
Proof.
  unfold postToChannel_message. f_equal.
  induction output as [|id rest IH]; simpl; auto.
  destruct (lookup id data) as [v|] eqn:E; simpl; [|exact IH].
  rewrite IH. unfold render_entry, render_value. rewrite E. reflexivity.
Qed.

(** C4.  For every record and selector, [postToChannel] computes one line
    and delivers that same line once to each configured room: selected
    paths absent from the record contribute nothing, objects, arrays and
    [null] are rendered by [JSON.stringify], other values by their string
    form, and the retained [path: value] pairs are joined by [", "].  With
    an empty selector the line is empty and is still delivered.  The
    spec's two examples are instances. *)
Theorem projection_one_line :
  (forall rooms output data,
     postToChannel rooms output data =
     map (fun room => (room,
            join ", " (flat_map (fun id => match lookup id data with
                                           | Some v => [id ++ ": " ++ render_value v]
                                           | None => []
                                           end) output))) rooms) /\
  (forall v, typeof_object v = true -> render_value v = stringify v) /\
  (forall rooms data, postToChannel rooms [] data = map (fun room => (room, "")) rooms) /\
  postToChannel ["room"] ["a.b"; "c"] (JObj [("a", JObj [("b", JNum 1 0)])])
    = [("room", "a.b: 1")] /\
  postToChannel ["room"] ["body"] (JObj [("body", JObj [("x", JNum 1 0)])])
    = [("room", "body: {" ++ dq ++ "x" ++ dq ++ ":1}")].
Proof.
  split; [|split; [|split]].
  - intros rooms output data. unfold postToChannel, sendToAll.
    now rewrite postToChannel_message_entries.
  - intros v Hv. unfold render_value. now rewrite Hv.
  - intros rooms data. reflexivity.
  - split; vm_compute; reflexivity.
Qed.

Lemma index_in_found l x i :
  (0 <= i)%Z -> existsb (fun y => strict_eq_str y x) l = true -> (index_in l x i =? -1)%Z = false.
Proof.
  revert i. induction l as [|y l IH]; intros i Hi H; simpl in *; [discriminate|].
  destruct (strict_eq_str y x); simpl in H.
  - apply Z.eqb_neq. lia.
  - apply IH; [lia | exact H].
Qed.

Lemma index_in_absent l x i :
  existsb (fun y => strict_eq_str y x) l = false -> index_in l x i = (-1)%Z.
Proof.
  revert i. induction l as [|y l IH]; intros i H; simpl in *; auto.
  destruct (strict_eq_str y x); simpl in H; [discriminate | auto].
Qed.

(** C6.  For a filter key of [FILTERS] and a value of its domain, adding a
    value already in [filters[0][key]] and removing a value that is not
    there (the list absent, or present without it) change neither the
    document nor the change stream: the only effect is one rejection
    message to the requester. *)
Theorem filters_idempotent_rejection (s : St) (filterType filter : string)
  (allowed : list string)
  (Hkey : filters_get filterType = Some allowed) (Hval : set_has allowed filter = true) :
  (forall l, jget (split_dot ("filters.0." ++ filterType)) (doc s) = Some (JArr l) ->
     existsb (fun y => strict_eq_str y filter) l = true ->
     h_filters "add" filterType filter false s =
     (Ok tt, mkSt (doc s) (output s) (emitted s)
               (replies s ++ [sad ++ " " ++ filterType ++ " filter already includes " ++ filter]))) /\
  (forall cur, jget (split_dot ("filters.0." ++ filterType)) (doc s) = cur ->
     (cur = None \/ exists l, cur = Some (JArr l) /\
                              existsb (fun y => strict_eq_str y filter) l = false) ->
     h_filters "remove" filterType filter false s =
     (Ok tt, mkSt (doc s) (output s) (emitted s)
               (replies s ++ [sad ++ " " ++ filterType ++ " filter does not include " ++ filter]))).
Proof.
  split.
  - intros l Hget Hin. unfold h_filters. rewrite Hkey, Hval. cbv beta iota zeta delta [negb].
    unfold bind at 1, st_get. cbv beta. rewrite Hget. cbv beta iota delta [or_empty]. rewrite String.eqb_refl.
    unfold bind, js_index_of, ret. rewrite (index_in_found l filter 0) by (lia || exact Hin).
    reflexivity.
  - intros cur Hget Hcur. unfold h_filters. rewrite Hkey, Hval. cbv beta iota zeta delta [negb].
    unfold bind at 1, st_get. cbv beta. rewrite Hget.
    destruct Hcur as [-> | (l & -> & Hout)].
    + reflexivity.
    + cbv beta iota delta [or_empty]. rewrite String.eqb_refl.
      unfold bind, js_index_of, ret. rewrite (index_in_absent l filter 0 Hout). reflexivity.
Qed.

Lemma filters_idempotent_rejection_witness :
  filters_get "types" = Some EVENT_TYPES /\ set_has EVENT_TYPES "PUSH_BODY" = true /\
  h_filters "add" "types" "PUSH_BODY" false S0 =
  (Ok tt, mkSt (doc S0) (output S0) (emitted S0)
            (replies S0 ++ [sad ++ " " ++ "types" ++ " filter already includes " ++ "PUSH_BODY"])) /\
  h_filters "remove" "types" "PUSH_BODY" false (snd (h_filters "remove" "types" "PUSH_BODY" false S0)) =
  (Ok tt, mkSt (doc (snd (h_filters "remove" "types" "PUSH_BODY" false S0)))
            (output S0) (emitted (snd (h_filters "remove" "types" "PUSH_BODY" false S0)))
            (replies S0 ++ [sad ++ " " ++ "types" ++ " filter does not include " ++ "PUSH_BODY"])).
Proof.
  split; [reflexivity|]. split; [reflexivity|]. split.
  - apply (proj1 (filters_idempotent_rejection S0 "types" "PUSH_BODY" EVENT_TYPES
                    eq_refl eq_refl) (map JStr EVENT_TYPES)); reflexivity.
  - apply (proj2 (filters_idempotent_rejection
                    (snd (h_filters "remove" "types" "PUSH_BODY" false S0))
                    "types" "PUSH_BODY" EVENT_TYPES eq_refl eq_refl)
                 (Some (JArr (map JStr (List.tl EVENT_TYPES))))).
    + vm_compute. reflexivity.
    + right. exists (map JStr (List.tl EVENT_TYPES)). split; reflexivity.
Defined.

Lemma hear_set_current parse payload s :
  existsb is_line_terminator (list_ascii_of_string payload) = false ->
  hear parse ("!set current " ++ payload) false s =
  bind (h_set_current parse payload) (fun _ => ret tt) false s.
Proof.
  intros Hline. unfold_listeners. rewrite prefix_ci_self, Hline. reflexivity.
Qed.

(** C9 (as the code has it: counterexample).  The pattern of the
    [!set current] listener captures [.] repeatedly up to [$], with no [s]
    or [m] flag: [.] matches no line terminator and [$] is the end of the
    message, so an unparseable payload
    that spans two lines never reaches the handler.  [!set current {]
    followed by a line feed gets no reply at all, although [JSON.parse]
    rejects the payload. *)
Definition multiline_payload : string := "{" ++ String (ascii_of_nat 10) "".

Lemma set_current_multiline_unreported :
  json_parse multiline_payload = inl "Unexpected end of JSON input" /\
  step ("!set current " ++ multiline_payload) S0 = S0.
Proof. split; vm_compute; reflexivity. Qed.

(** C9 (amended).  For every parser and every payload it rejects with
    message [msg], [!set current payload] changes nothing: the document, the
    selector and the change stream are as before.  A single-line payload is
    reported to the requester as ["error parsing JSON: " ++ msg]; a payload
    containing a line terminator matches no listener and gets no reply. *)
Theorem set_current_parse_error (parse : string -> parse_result) (payload msg : string) (s : St)
  (Hparse : parse payload = inl msg) :
  hear parse ("!set current " ++ payload) false s =
  if existsb is_line_terminator (list_ascii_of_string payload) then (Ok tt, s)
  else (Ok tt, mkSt (doc s) (output s) (emitted s) (replies s ++ [sad ++ " error parsing JSON: " ++ msg])).
Proof.
  destruct (existsb is_line_terminator (list_ascii_of_string payload)) eqn:Hline.
  - unfold_listeners. rewrite prefix_ci_self, Hline. reflexivity.
  - rewrite hear_set_current by exact Hline.
    unfold bind, h_set_current. rewrite Hparse. reflexivity.
Qed.

Lemma set_current_parse_error_witness :
  json_parse "{" = inl "Unexpected end of JSON input" /\
  step ("!set current " ++ "{") S0 =
  mkSt (doc S0) (output S0) (emitted S0)
       (replies S0 ++ [sad ++ " error parsing JSON: " ++ "Unexpected end of JSON input"]) /\
  hear json_parse ("!set current " ++ multiline_payload) false S0 = (Ok tt, S0).
Proof.
  split; [reflexivity|]. split.
  - unfold step. rewrite (set_current_parse_error json_parse "{" "Unexpected end of JSON input" S0);
      reflexivity.
  - rewrite (set_current_parse_error json_parse multiline_payload "Unexpected end of JSON input" S0);
      vm_compute; reflexivity.
Defined.

(** A payload whose document breaks the stated invariants: both [start] and
    [resume_offset], an event type outside [EVENT_TYPES], a partition with
    count 0 and selection 5. *)
Definition bad_payload : string :=
  "{" ++ dq ++ "start" ++ dq ++ ":" ++ dq ++ "LATEST" ++ dq ++ "," ++ dq ++ "resume_offset" ++ dq
  ++ ":7," ++ dq ++ "filters" ++ dq ++ ":[{" ++ dq ++ "types" ++ dq ++ ":[" ++ dq ++ "BOGUS" ++ dq
  ++ "]}]," ++ dq ++ "subset" ++ dq ++ ":{" ++ dq ++ "type" ++ dq ++ ":" ++ dq ++ "PARTITION" ++ dq
  ++ "," ++ dq ++ "count" ++ dq ++ ":0," ++ dq ++ "selection" ++ dq ++ ":5}}".

Definition bad_document : jval :=
  JObj [("start", JStr "LATEST"); ("resume_offset", JNum 7 0);
        ("filters", JArr [JObj [("types", JArr [JStr "BOGUS"])]]);
        ("subset", partition_policy 0 5)].

(** C10.  For every parser and every single-line payload it accepts,
    [!set current payload] replaces the whole document with the parsed
    value, unvalidated, with one notification and no reply. *)
Theorem set_current_installs_parsed (parse : string -> parse_result) (payload : string)
  (data : jval) (s : St)
  (Hline : existsb is_line_terminator (list_ascii_of_string payload) = false)
  (Hparse : parse payload = inr data) :
  hear parse ("!set current " ++ payload) false s =
  (Ok tt, mkSt data (output s) (emitted s ++ [data]) (replies s)).
Proof.
  rewrite hear_set_current by exact Hline.
  unfold bind, h_set_current. rewrite Hparse. reflexivity.
Qed.

Lemma set_current_installs_parsed_witness :
  json_parse bad_payload = inr bad_document /\
  doc (step ("!set current " ++ bad_payload) S0) = bad_document /\
  exactly_one_position bad_document = false /\
  set_has EVENT_TYPES "BOGUS" = false.
Proof.
  split; [vm_compute; reflexivity|]. split; [|split; reflexivity].
  unfold step.
  rewrite (set_current_installs_parsed json_parse bad_payload bad_document S0);
    [reflexivity | vm_compute; reflexivity | vm_compute; reflexivity].
Defined.

(** ** Invariants kept by every message *)

(** The selector is a set, and the last snapshot emitted (persisted by
    [saveState] and piped to the Connect stream) is the current document. *)
Definition last_snapshot (l : list jval) : option jval :=
  match rev l with [] => None | x :: _ => Some x end.

Definition bot_inv (s : St) : Prop :=
  NoDup (output s) /\ last_snapshot (emitted s) = Some (doc s).

Definition keeps {A} (m : M A) : Prop := forall s, bot_inv s -> bot_inv (snd (m false s)).

Lemma last_snapshot_snoc l x : last_snapshot (l ++ [x]) = Some x.
Proof. unfold last_snapshot. now rewrite rev_unit. Qed.

Lemma keeps_ret {A} (a : A) : keeps (ret a).
Proof. intros s H; exact H. Qed.

Lemma keeps_throw {A} e : keeps (@throw A e).
Proof. intros s H; exact H. Qed.

Lemma keeps_send msg : keeps (send msg).
Proof. intros s H; exact H. Qed.

Lemma keeps_get_output : keeps get_output.
Proof. intros s H; exact H. Qed.

Lemma keeps_st_state : keeps st_state.
Proof. intros s H; exact H. Qed.

Lemma keeps_st_get kp : keeps (st_get kp).
Proof. intros s H; exact H. Qed.

Lemma keeps_emit_now s d : NoDup (output s) -> bot_inv (emit_now (put_doc d s)).
Proof. intros H. split; [exact H|]. simpl. apply last_snapshot_snoc. Qed.

Lemma keeps_st_set kp v : keeps (st_set kp v).
Proof. intros s [H _]. apply keeps_emit_now, H. Qed.

Lemma keeps_st_write d : keeps (st_write d).
Proof. intros s [H _]. apply keeps_emit_now, H. Qed.

Lemma jremove_false p d d' : jremove p d = (false, d') -> d' = d.
Proof.
  destruct p as [|k [|k2 ks]]; intros H; [simpl in H; congruence| |];
    (destruct d; cbn [jremove] in H; try congruence);
    repeat match type of H with
           | context [match ?x with _ => _ end] => destruct x
           end; congruence.
Qed.

Lemma keeps_st_remove kp : keeps (st_remove kp).
Proof.
  intros s [Hn Hl]. unfold st_remove.
  destruct (jremove (split_dot kp) (doc s)) as [[|] d'] eqn:E; simpl.
  - apply keeps_emit_now, Hn.
  - apply jremove_false in E. subst d'. split; assumption.
Qed.

Lemma keeps_set_output o : NoDup o -> keeps (set_output o).
Proof. intros Ho s [_ Hl]. split; [exact Ho | exact Hl]. Qed.

Lemma keeps_bind {A B} (m : M A) (k : A -> M B) :
  keeps m -> (forall a, keeps (k a)) -> keeps (bind m k).
Proof.
  intros Hm Hk s H. unfold bind. specialize (Hm s H).
  destruct (m false s) as [[a|e] s']; [apply Hk|]; exact Hm.
Qed.

Lemma keeps_js_index_of v x : keeps (js_index_of v x).
Proof. intros st H; destruct v; exact H. Qed.

Lemma keeps_js_concat v x : keeps (js_concat v x).
Proof. intros st H; destruct v; exact H. Qed.

Lemma keeps_js_filter_ne v x : keeps (js_filter_ne v x).
Proof. intros st H; destruct v; exact H. Qed.

Lemma keeps_object_keys o : keeps (object_keys o).
Proof. intros st H; destruct o as [[]|]; exact H. Qed.

Create HintDb keeps_db.
#[local] Hint Resolve keeps_ret keeps_throw keeps_send keeps_get_output keeps_st_state
  keeps_st_get keeps_st_set keeps_st_write keeps_st_remove keeps_js_index_of keeps_js_concat
  keeps_js_filter_ne keeps_object_keys : keeps_db.

Ltac keeps_tac :=
  repeat match goal with
         | |- keeps (bind _ _) => apply keeps_bind; [|intros ?]
         | |- keeps (if ?b then _ else _) => destruct b
         | |- keeps (match ?x with _ => _ end) => destruct x
         | |- keeps _ => solve [auto with keeps_db]
         end.

Lemma set_has_In l x : set_has l x = true <-> In x l.
Proof.
  unfold set_has. rewrite existsb_exists. split.
  - intros (y & Hy & E). apply String.eqb_eq in E. now subst.
  - intros H. exists x. split; [exact H | apply String.eqb_refl].
Qed.

Lemma In_dedup x l : In x (dedup l) <-> In x l.
Proof.
  induction l as [|y l IH]; simpl; [tauto|].
  rewrite filter_In, IH. destruct (String.eqb y x) eqn:E; simpl.
  - apply String.eqb_eq in E. subst. tauto.
  - apply String.eqb_neq in E. intuition.
Qed.

Lemma NoDup_dedup l : NoDup (dedup l).
Proof.
  induction l as [|y l IH]; simpl; constructor.
  - rewrite filter_In, String.eqb_refl. simpl. intros [_ H]; discriminate.
  - apply NoDup_filter, IH.
Qed.

Lemma NoDup_snoc (l : list string) x : NoDup l -> ~ In x l -> NoDup (l ++ [x]).
Proof.
  intros H Hx. apply NoDup_app; auto using NoDup_cons, NoDup_nil.
  intros y Hy [<- | []]. contradiction.
Qed.

Lemma keeps_h_reset : keeps h_reset.
Proof.
  unfold h_reset. apply keeps_bind; [|intros; auto with keeps_db].
  apply keeps_set_output. unfold DEFAULT_OUTPUT.
  repeat constructor; simpl; intuition discriminate.
Qed.

Lemma keeps_h_set_output cap : keeps (h_set_output cap).
Proof.
  unfold h_set_output. apply keeps_bind; [apply keeps_set_output, NoDup_dedup | auto with keeps_db].
Qed.

Lemma keeps_h_show p : keeps (h_show p).
Proof.
  intros s [Hn Hl]. unfold h_show, bind, get_output. cbv beta iota.
  destruct (set_has (output s) p) eqn:E; [split; assumption|].
  split; [|exact Hl]. simpl. apply NoDup_snoc; [exact Hn|].
  intros Hin. apply set_has_In in Hin. congruence.
Qed.

Lemma keeps_h_hide p : keeps (h_hide p).
Proof.
  intros s [Hn Hl]. unfold h_hide, bind, get_output. cbv beta iota.
  destruct (negb (set_has (output s) p)); [split; assumption|].
  split; [apply NoDup_filter, Hn | exact Hl].
Qed.

Lemma keeps_h_set_current parse payload : keeps (h_set_current parse payload).
Proof. unfold h_set_current. keeps_tac. Qed.

Lemma keeps_h_current : keeps h_current.
Proof. unfold h_current. keeps_tac. Qed.

Lemma keeps_h_set_start tok : keeps (h_set_start tok).
Proof. intros s [Hn _]. rewrite h_set_start_run. apply keeps_emit_now, Hn. Qed.

Lemma keeps_h_set_resume_offset cap : keeps (h_set_resume_offset cap).
Proof. intros s [Hn _]. rewrite h_set_resume_offset_run. apply keeps_emit_now, Hn. Qed.

Lemma keeps_h_sample cap : keeps (h_sample cap).
Proof. unfold h_sample, h_sample_value. keeps_tac. Qed.

Lemma keeps_h_partition c sel : keeps (h_partition c sel).
Proof. unfold h_partition, h_partition_values. keeps_tac. Qed.

Lemma keeps_h_clear_subset : keeps h_clear_subset.
Proof. unfold h_clear_subset. keeps_tac. Qed.

Lemma keeps_h_filters_clear k : keeps (h_filters_clear k).
Proof. unfold h_filters_clear. keeps_tac. Qed.

Lemma keeps_h_filters op k v : keeps (h_filters op k v).
Proof. unfold h_filters. keeps_tac. Qed.

#[local] Hint Resolve keeps_h_reset keeps_h_set_output keeps_h_show keeps_h_hide
  keeps_h_set_current keeps_h_current keeps_h_set_start keeps_h_set_resume_offset keeps_h_sample
  keeps_h_partition keeps_h_clear_subset keeps_h_filters_clear keeps_h_filters : keeps_db.

Definition listener_keeps (l : listener) : Prop := forall msg h, l msg = Some h -> keeps h.

Lemma keeps_run_listeners ls msg : Forall listener_keeps ls -> keeps (run_listeners ls msg).
Proof.
  intros H. induction H as [|l ls Hl _ IH]; simpl; [apply keeps_ret|].
  destruct (l msg) as [h|] eqn:E; [|exact IH].
  apply keeps_bind; [exact (Hl msg h E) | intros; exact IH].
Qed.

Lemma listeners_keep parse : Forall listener_keeps (listeners parse).
Proof.
  unfold listeners. repeat apply Forall_cons; try apply Forall_nil; intros msg h H;
    unfold l_reset, l_set_output, l_show, l_hide, l_set_current, l_current, l_set_start,
      l_set_resume_offset, l_sample, l_partition, l_clear_subset, l_filters_clear, l_filters in H;
    cbv zeta in H;
    repeat match type of H with
           | context [match ?x with _ => _ end] => destruct x
           end; try discriminate; injection H as <-; auto with keeps_db.
Qed.

Lemma run_msgs_keeps msgs s : bot_inv s -> bot_inv (run_msgs msgs s).
Proof.
  revert s. induction msgs as [|m ms IH]; intros s H; simpl; [exact H|].
  apply IH. unfold step. apply (keeps_run_listeners _ m (listeners_keep json_parse)), H.
Qed.

Lemma setup_inv persisted persisted_output : bot_inv (setup persisted persisted_output).
Proof.
  unfold setup. split.
  - destruct persisted_output; [apply NoDup_dedup|].
    unfold DEFAULT_OUTPUT. repeat constructor; simpl; intuition discriminate.
  - reflexivity.
Qed.


(** [!reset] (with anything after it) puts back the default document and
    the default selector, with one notification and no reply. *)
Theorem reset_restores_defaults (r : string) (s : St) :
  step ("!reset" ++ r) s =
  mkSt DEFAULT_STATE DEFAULT_OUTPUT (emitted s ++ [DEFAULT_STATE]) (replies s).
Proof. unfold_listeners. rewrite prefix_ci_self. reflexivity. Qed.

Lemma filter_snoc_fresh (o : list string) p :
  ~ In p o -> filter (fun y => negb (String.eqb p y)) (o ++ [p]) = o.
Proof.
  intros H. rewrite filter_app. simpl. rewrite String.eqb_refl. simpl. rewrite app_nil_r.
  induction o as [|y o IH]; simpl; auto.
  destruct (String.eqb p y) eqn:E.
  - apply String.eqb_eq in E. subst. exfalso. apply H. now left.
  - simpl. f_equal. apply IH. intros Hin. apply H. now right.
Qed.

(** [!show p] of a path not shown yet appends it; [!hide p] then gives back
    the selector as it was.  The document and the change stream are never
    touched; each step acknowledges. *)
Theorem show_hide_roundtrip (p : string) (s : St) (Hfresh : set_has (output s) p = false) :
  let s1 := snd (h_show p false s) in
  let s2 := snd (h_hide p false s1) in
  output s1 = (output s ++ [p])%list /\ output s2 = output s /\
  doc s2 = doc s /\ emitted s2 = emitted s /\ replies s2 = (replies s ++ [updated; updated])%list.
Proof.
  unfold h_show, h_hide, bind, get_output, set_output, send. cbv beta iota zeta. simpl.
  rewrite Hfresh. simpl.
  assert (Hin : set_has (output s ++ [p]) p = true)
    by (apply set_has_In, in_or_app; right; left; reflexivity).
  rewrite Hin. simpl.
  assert (Hn : ~ In p (output s)) by (intros H; apply set_has_In in H; congruence).
  rewrite filter_snoc_fresh by exact Hn.
  repeat split; try reflexivity. rewrite <- app_assoc. reflexivity.
Qed.

Lemma show_hide_roundtrip_witness :
  set_has (output S0) "body.name" = false /\
  output (snd (h_hide "body.name" false (snd (h_show "body.name" false S0)))) = output S0.
Proof.
  split; [reflexivity|]. apply (show_hide_roundtrip "body.name" S0). reflexivity.
Defined.

(** *** Writing back what a key path already holds *)

Lemma assoc_set_get_id k c kv : assoc_get k kv = Some c -> assoc_set k c kv = kv.
Proof.
  induction kv as [|[k' v'] kv IH]; simpl; [discriminate|].
  destruct (String.eqb k k') eqn:E; intros H.
  - injection H as ->. reflexivity.
  - f_equal. apply IH, H.
Qed.

Lemma assoc_set_set k a b kv : assoc_set k a (assoc_set k b kv) = assoc_set k a kv.
Proof.
  induction kv as [|[k' v'] kv IH]; simpl.
  - rewrite String.eqb_refl. reflexivity.
  - destruct (String.eqb k k') eqn:E; simpl; rewrite E; [reflexivity|]. f_equal. exact IH.
Qed.

Lemma nth_split (l : list jval) i c :
  nth_error l i = Some c -> (firstn i l ++ c :: skipn (S i) l)%list = l.
Proof.
  revert l. induction i as [|i IH]; intros [|a l] H; simpl in *; try discriminate.
  - injection H as ->. reflexivity.
  - f_equal. apply IH, H.
Qed.

Lemma split_parts (p r : list jval) x :
  firstn (List.length p) (p ++ x :: r) = p /\ skipn (S (List.length p)) (p ++ x :: r) = r /\
  nth_error (p ++ x :: r) (List.length p) = Some x.
Proof.
  induction p as [|a p IH]; simpl; [auto|]. destruct IH as (H1 & H2 & H3).
  rewrite H1. auto.
Qed.

Lemma list_put_in_range i (l : list jval) c x :
  nth_error l i = Some c -> list_put i x l = (firstn i l ++ x :: skipn (S i) l)%list.
Proof.
  intros H. unfold list_put.
  assert (Hlt : i < List.length l) by (apply nth_error_Some; congruence).
  apply Nat.ltb_lt in Hlt. rewrite Hlt. reflexivity.
Qed.

Lemma firstn_len_le i (l : list jval) : i < List.length l -> List.length (firstn i l) = i.
Proof. intros H. apply firstn_length_le. lia. Qed.

Lemma list_put_same i l c : nth_error l i = Some c -> list_put i c l = l.
Proof. intros H. rewrite (list_put_in_range i l c c H). apply nth_split, H. Qed.

Lemma list_put_nth i l c x : nth_error l i = Some c -> nth_error (list_put i x l) i = Some x.
Proof.
  intros H. rewrite (list_put_in_range i l c x H).
  assert (Hlen : List.length (firstn i l) = i)
    by (apply firstn_len_le, nth_error_Some; congruence).
  destruct (split_parts (firstn i l) (skipn (S i) l) x) as (_ & _ & H3).
  rewrite Hlen in H3. exact H3.
Qed.

Lemma list_put_put i l c x y :
  nth_error l i = Some c -> list_put i y (list_put i x l) = list_put i y l.
Proof.
  intros H. pose proof (list_put_nth i l c x H) as H'.
  rewrite (list_put_in_range _ _ _ y H'), (list_put_in_range i l c x H),
    (list_put_in_range i l c y H).
  assert (Hlen : List.length (firstn i l) = i)
    by (apply firstn_len_le, nth_error_Some; congruence).
  destruct (split_parts (firstn i l) (skipn (S i) l) x) as (H1 & H2 & _).
  rewrite Hlen in H1, H2. rewrite H1, H2. reflexivity.
Qed.

Lemma jset_jget_id p d x : jget p d = Some x -> jset p x d = d.
Proof.
  revert d. induction p as [|k ks IH]; intros d H; simpl in *.
  - congruence.
  - destruct d as [| | | |l|kv]; simpl in H; try discriminate.
    + destruct (array_index k) as [i|]; [|discriminate].
      destruct (nth_error l i) as [c|] eqn:Hc; [|discriminate]. simpl.
      rewrite (IH c H). rewrite (list_put_same i l c Hc). reflexivity.
    + destruct (assoc_get k kv) as [c|] eqn:Hc; [|discriminate]. simpl.
      rewrite (IH c H). rewrite (assoc_set_get_id k c kv Hc). reflexivity.
Qed.

Lemma jget_jset_same p d x v : jget p d = Some x -> jget p (jset p v d) = Some v.
Proof.
  revert d. induction p as [|k ks IH]; intros d H; simpl in *; [reflexivity|].
  destruct d as [| | | |l|kv]; simpl in H; try discriminate.
  - destruct (array_index k) as [i|] eqn:Hi; [|discriminate].
    destruct (nth_error l i) as [c|] eqn:Hc; [|discriminate]. simpl.
    rewrite Hi, (list_put_nth i l c _ Hc). apply (IH c H).
  - destruct (assoc_get k kv) as [c|] eqn:Hc; [|discriminate]. simpl.
    rewrite assoc_get_set_same. apply (IH c H).
Qed.

Lemma jset_jset p d x v1 v2 : jget p d = Some x -> jset p v2 (jset p v1 d) = jset p v2 d.
Proof.
  revert d. induction p as [|k ks IH]; intros d H; simpl in *; [reflexivity|].
  destruct d as [| | | |l|kv]; simpl in H; try discriminate.
  - destruct (array_index k) as [i|] eqn:Hi; [|discriminate].
    destruct (nth_error l i) as [c|] eqn:Hc; [|discriminate]. simpl.
    rewrite (list_put_nth i l c _ Hc). simpl.
    rewrite (IH c H). f_equal. apply (list_put_put i l c). exact Hc.
  - destruct (assoc_get k kv) as [c|] eqn:Hc; [|discriminate]. simpl.
    rewrite assoc_get_set_same. simpl. rewrite (IH c H). f_equal. apply assoc_set_set.
Qed.

Lemma filter_ne_snoc_fresh l v :
  existsb (fun y => strict_eq_str y v) l = false ->
  filter (fun x => negb (strict_eq_str x v)) (l ++ [JStr v]) = l.
Proof.
  intros H. rewrite filter_app. simpl. rewrite String.eqb_refl. simpl. rewrite app_nil_r.
  induction l as [|y l IH]; simpl in *; auto.
  destruct (strict_eq_str y v); simpl in *; [discriminate|]. f_equal. apply IH, H.
Qed.

Lemma existsb_snoc_self l v : existsb (fun y => strict_eq_str y v) (l ++ [JStr v]) = true.
Proof. rewrite existsb_app. simpl. rewrite String.eqb_refl. apply Bool.orb_true_r. Qed.

Lemma h_filters_add_run (s : St) filterType filter allowed l
  (Hkey : filters_get filterType = Some allowed) (Hval : set_has allowed filter = true)
  (Hget : jget (split_dot ("filters.0." ++ filterType)) (doc s) = Some (JArr l))
  (Hfresh : existsb (fun y => strict_eq_str y filter) l = false) :
  h_filters "add" filterType filter false s =
  (Ok tt, emit_now (put_doc (jset (split_dot ("filters.0." ++ filterType))
                                  (JArr (l ++ [JStr filter])) (doc s)) s)).
Proof.
  unfold h_filters. rewrite Hkey, Hval. cbv beta iota zeta delta [negb].
  unfold bind at 1, st_get. cbv beta. rewrite Hget. cbv beta iota delta [or_empty].
  rewrite String.eqb_refl.
  unfold bind, js_index_of, js_concat, ret, st_set. rewrite (index_in_absent l filter 0 Hfresh).
  reflexivity.
Qed.

Lemma h_filters_remove_run (s : St) filterType filter allowed l
  (Hkey : filters_get filterType = Some allowed) (Hval : set_has allowed filter = true)
  (Hget : jget (split_dot ("filters.0." ++ filterType)) (doc s) = Some (JArr l))
  (Hin : existsb (fun y => strict_eq_str y filter) l = true) :
  h_filters "remove" filterType filter false s =
  (Ok tt, emit_now (put_doc (jset (split_dot ("filters.0." ++ filterType))
                                  (JArr (List.filter (fun x => negb (strict_eq_str x filter)) l))
                                  (doc s)) s)).
Proof.
  unfold h_filters. rewrite Hkey, Hval. cbv beta iota zeta delta [negb].
  unfold bind at 1, st_get. cbv beta. rewrite Hget. cbv beta iota delta [or_empty].
  change (String.eqb "remove" "add") with false. rewrite String.eqb_refl.
  unfold bind, js_index_of, js_filter_ne, ret, st_set.
  rewrite (index_in_found l filter 0) by (lia || exact Hin).
  reflexivity.
Qed.

(** Adding a value of the key's domain that [filters[0][key]] lacks, then
    removing it, gives back the document exactly; each step notifies once
    and neither replies. *)
Theorem filters_add_remove_roundtrip (s : St) (filterType filter : string)
  (allowed : list string) (l : list jval)
  (Hkey : filters_get filterType = Some allowed) (Hval : set_has allowed filter = true)
  (Hget : jget (split_dot ("filters.0." ++ filterType)) (doc s) = Some (JArr l))
  (Hfresh : existsb (fun y => strict_eq_str y filter) l = false) :
  let s1 := snd (h_filters "add" filterType filter false s) in
  let s2 := snd (h_filters "remove" filterType filter false s1) in
  doc s1 = jset (split_dot ("filters.0." ++ filterType)) (JArr (l ++ [JStr filter])) (doc s) /\
  doc s2 = doc s /\ output s2 = output s /\
  emitted s2 = (emitted s ++ [doc s1; doc s])%list /\ replies s2 = replies s.
Proof.
  cbv zeta. rewrite (h_filters_add_run s filterType filter allowed l Hkey Hval Hget Hfresh).
  cbn [snd].
  set (P := split_dot ("filters.0." ++ filterType)).
  set (s1 := emit_now (put_doc (jset P (JArr (l ++ [JStr filter])) (doc s)) s)).
  assert (Hget1 : jget P (doc s1) = Some (JArr (l ++ [JStr filter])))
    by (apply (jget_jset_same P (doc s) (JArr l)), Hget).
  rewrite (h_filters_remove_run s1 filterType filter allowed (l ++ [JStr filter]) Hkey Hval
             Hget1 (existsb_snoc_self l filter)).
  rewrite (filter_ne_snoc_fresh l filter Hfresh).
  unfold s1, emit_now, put_doc; cbn [snd doc output emitted replies].
  rewrite (jset_jset P (doc s) (JArr l)) by exact Hget.
  rewrite (jset_jget_id P (doc s) (JArr l) Hget).
  repeat split; try reflexivity. rewrite <- app_assoc. reflexivity.
Qed.

Lemma filters_add_remove_roundtrip_witness :
  let s := snd (h_filters "remove" "device_types" "ios" false S0) in
  filters_get "device_types" = Some DEVICE_TYPES /\ set_has DEVICE_TYPES "ios" = true /\
  jget (split_dot ("filters.0." ++ "device_types")) (doc s) = Some (JArr [JStr "android"; JStr "amazon"]) /\
  existsb (fun y => strict_eq_str y "ios") [JStr "android"; JStr "amazon"] = false /\
  doc (snd (h_filters "remove" "device_types" "ios" false
             (snd (h_filters "add" "device_types" "ios" false s)))) = doc s.
Proof.
  cbv zeta. split; [reflexivity|]. split; [reflexivity|]. split; [vm_compute; reflexivity|].
  split; [reflexivity|].
  apply (filters_add_remove_roundtrip _ "device_types" "ios" DEVICE_TYPES
           [JStr "android"; JStr "amazon"]); [reflexivity | reflexivity | vm_compute; reflexivity
                                             | reflexivity].
Defined.

(** [h_filters] changes the document only for a key of [FILTERS], a value
    of its domain and an operation spelled exactly [add] or [remove]. *)
Theorem filters_changes_only_valid (op filterType filter : string) (s : St)
  (Hchanged : doc (snd (h_filters op filterType filter false s)) <> doc s) :
  exists allowed, filters_get filterType = Some allowed /\ set_has allowed filter = true /\
                  (op = "add" \/ op = "remove").
Proof.
  revert Hchanged. unfold h_filters.
  destruct (filters_get filterType) as [allowed|];
    [| intros H; exfalso; apply H; reflexivity].
  destruct (set_has allowed filter) eqn:Hv; cbn [negb];
    [| intros H; exfalso; apply H; reflexivity].
  intros H. exists allowed. split; [reflexivity|]. split; [exact Hv|].
  revert H.
  destruct (String.eqb op "add") eqn:Ea; [intros _; left; apply String.eqb_eq, Ea|].
  destruct (String.eqb op "remove") eqn:Er; [intros _; right; apply String.eqb_eq, Er|].
  intros H. exfalso. apply H. reflexivity.
Qed.

Lemma filters_changes_only_valid_witness :
  doc (snd (h_filters "remove" "types" "SEND" false S0)) <> doc S0 /\
  exists allowed, filters_get "types" = Some allowed /\ set_has allowed "SEND" = true /\
                  ("remove" = "add" \/ "remove" = "remove").
Proof.
  assert (H : doc (snd (h_filters "remove" "types" "SEND" false S0)) <> doc S0)
    by (vm_compute; discriminate).
  split; [exact H|]. apply (filters_changes_only_valid "remove" "types" "SEND" S0 H).
Defined.

(** *** The [(add|remove)] capture *)

Lemma prefix_ci_full_app a b o t :
  prefix_ci a o = Some "" -> prefix_ci (a ++ b) (o ++ t) = prefix_ci b t.
Proof.
  revert o. induction a as [|x a IH]; intros o H.
  - cbn [prefix_ci] in H. injection H as ->. reflexivity.
  - destruct o as [|y o]; cbn [prefix_ci] in H; [discriminate|].
    cbn [append prefix_ci]. destruct (Ascii.eqb (lower x) (lower y)); [|discriminate].
    apply IH, H.
Qed.

Lemma prefix_ci_full_length a o : prefix_ci a o = Some "" -> String.length o = String.length a.
Proof.
  revert o. induction a as [|x a IH]; intros o H.
  - cbn [prefix_ci] in H. injection H as ->. reflexivity.
  - destruct o as [|y o]; cbn [prefix_ci] in H; [discriminate|].
    destruct (Ascii.eqb (lower x) (lower y)); [|discriminate]. cbn. f_equal. apply IH, H.
Qed.

Lemma prefix_ci_first_differs a x b y o t :
  prefix_ci (String a x) o = Some "" -> Ascii.eqb (lower b) (lower a) = false ->
  prefix_ci (String b y) (o ++ t) = None.
Proof.
  intros H Hb. destruct o as [|c o]; cbn [prefix_ci] in H; [discriminate|].
  destruct (Ascii.eqb (lower a) (lower c)) eqn:E; [|discriminate].
  apply Ascii.eqb_eq in E. cbn [append prefix_ci]. rewrite <- E, Hb. reflexivity.
Qed.

Lemma substring_prefix o t : substring 0 (String.length o) (o ++ t) = o.
Proof. induction o as [|c o IH]; [destruct t; reflexivity|]. cbn. f_equal. exact IH. Qed.

Lemma substring_all t m : String.length t <= m -> substring 0 m t = t.
Proof.
  revert m. induction t as [|c t IH]; intros m H; destruct m; cbn in *; try reflexivity; try lia.
  f_equal. apply IH. lia.
Qed.

Lemma substring_skip_sep o c t m : substring (S (String.length o)) m (o ++ String c t) = substring 0 m t.
Proof. induction o as [|d o IH]; [reflexivity|]. cbn. exact IH. Qed.

Lemma length_app_str a b : String.length (a ++ b) = String.length a + String.length b.
Proof. induction a as [|c a IH]; cbn; [reflexivity|]. rewrite IH. reflexivity. Qed.

Lemma take_while_sep f k c t :
  forallb f (list_ascii_of_string k) = true -> f c = false ->
  take_while f (k ++ String c t) = (k, String c t).
Proof.
  induction k as [|d k IH]; intros Hk Hc; cbn in *.
  - rewrite Hc. reflexivity.
  - apply andb_prop in Hk as [Hd Hk]. rewrite Hd, (IH Hk Hc). reflexivity.
Qed.

Lemma filters_domain_words k allowed v :
  filters_get k = Some allowed -> set_has allowed v = true ->
  k <> "" /\ forallb is_word (list_ascii_of_string k) = true /\
  v <> "" /\ forallb is_word (list_ascii_of_string v) = true.
Proof.
  unfold filters_get. cbn [find FILTERS fst].
  destruct (String.eqb k "device_types") eqn:E1;
    [|destruct (String.eqb k "types") eqn:E2; [|discriminate]].
  - apply String.eqb_eq in E1. subst. intros H. injection H as <-. intros Hv.
    apply set_has_In in Hv. unfold DEVICE_TYPES in Hv.
    repeat destruct Hv as [<- | Hv]; try (split; [discriminate | split; [reflexivity | split; [discriminate | reflexivity]]]).
    contradiction.
  - apply String.eqb_eq in E2. subst. intros H. injection H as <-. intros Hv.
    apply set_has_In in Hv. unfold EVENT_TYPES in Hv.
    repeat destruct Hv as [<- | Hv]; try (split; [discriminate | split; [reflexivity | split; [discriminate | reflexivity]]]).
    contradiction.
Qed.

(** The operation as the listener hands it over: any spelling that equals
    [add] or [remove] up to letter case is captured as typed. *)
Lemma l_filters_capture (o k v : string) (lit : string)
  (Hlit : lit = "add" \/ lit = "remove") (Ho : prefix_ci lit o = Some "")
  (Hk : k <> "") (Hkw : forallb is_word (list_ascii_of_string k) = true)
  (Hv : v <> "") (Hvw : forallb is_word (list_ascii_of_string v) = true) :
  l_filters ("!filters " ++ o ++ " " ++ k ++ " " ++ v) = Some (h_filters o k v).
Proof.
  unfold l_filters. rewrite prefix_ci_self. cbv zeta.
  set (R := o ++ " " ++ k ++ " " ++ v).
  assert (Hsep : is_word " "%char = false) by reflexivity.
  assert (Hrest : plus is_word (k ++ " " ++ v) = Some (k, " " ++ v)).
  { unfold plus. change (" " ++ v) with (String " " v).
    rewrite (take_while_sep is_word k " " v Hkw Hsep).
    destruct k; [contradiction | reflexivity]. }
  assert (Hr1 : forall n, String.length o = n ->
            substring 0 n R = o /\ substring (S n) (String.length R) R = k ++ " " ++ v).
  { intros n <-. split; [apply substring_prefix|].
    unfold R. cbn [append]. rewrite substring_skip_sep. apply substring_all.
    repeat (rewrite length_app_str; cbn [String.length]). lia. }
  pose proof (prefix_ci_full_length lit o Ho) as Hlen.
  destruct Hlit as [-> | ->].
  - replace (prefix_ci "add " R) with (Some (k ++ " " ++ v)).
    + destruct (Hr1 3 Hlen) as [-> ->]. rewrite Hrest. change (" " ++ v) with (String " " v). cbv iota beta.
      replace (Ascii.eqb " " " ") with true by reflexivity.
      rewrite plus_all by assumption. reflexivity.
    + symmetry. change "add " with ("add" ++ " "). unfold R.
      rewrite (prefix_ci_full_app "add" " " o _ Ho). apply (prefix_ci_self " ").
  - replace (prefix_ci "add " R) with (@None string)
      by (symmetry; apply (prefix_ci_first_differs "r" "emove" "a" "dd " o); [exact Ho | reflexivity]).
    replace (prefix_ci "remove " R) with (Some (k ++ " " ++ v)).
    + destruct (Hr1 6 Hlen) as [-> ->]. rewrite Hrest. change (" " ++ v) with (String " " v). cbv iota beta.
      replace (Ascii.eqb " " " ") with true by reflexivity.
      rewrite plus_all by assumption. reflexivity.
    + symmetry. change "remove " with ("remove" ++ " "). unfold R.
      rewrite (prefix_ci_full_app "remove" " " o _ Ho). apply (prefix_ci_self " ").
Qed.

(** The listener takes [add]/[remove] in any letter case and hands the
    operation over as typed, but the handler compares it case-sensitively:
    [!filters ADD types SEND] (any spelling but exactly [add] or [remove]),
    with a valid key and value, runs the filters handler and does nothing at
    all: no change, no notification, no reply. *)
Theorem filters_other_case_ignored (parse : string -> parse_result) (op filterType filter : string)
  (allowed : list string) (s : St)
  (Hkey : filters_get filterType = Some allowed) (Hval : set_has allowed filter = true)
  (Hcase : prefix_ci "add" op = Some "" \/ prefix_ci "remove" op = Some "")
  (Hadd : op <> "add") (Hrem : op <> "remove") :
  l_filters ("!filters " ++ op ++ " " ++ filterType ++ " " ++ filter) =
    Some (h_filters op filterType filter) /\
  hear parse ("!filters " ++ op ++ " " ++ filterType ++ " " ++ filter) false s = (Ok tt, s).
Proof.
  destruct (filters_domain_words filterType allowed filter Hkey Hval) as (Hk & Hkw & Hv & Hvw).
  assert (Hl : l_filters ("!filters " ++ op ++ " " ++ filterType ++ " " ++ filter) =
               Some (h_filters op filterType filter)).
  { destruct Hcase as [Ho | Ho];
      [apply (l_filters_capture op filterType filter "add") | apply (l_filters_capture op filterType filter "remove")];
      auto. }
  split; [exact Hl|].
  assert (Hclear : prefix_ci "clear " (op ++ " " ++ filterType ++ " " ++ filter) = None).
  { destruct Hcase as [Ho | Ho].
    - apply (prefix_ci_first_differs "a" "dd" "c" "lear " op); [exact Ho | reflexivity].
    - apply (prefix_ci_first_differs "r" "emove" "c" "lear " op); [exact Ho | reflexivity]. }
  unfold hear, listeners, l_reset, l_set_output, l_show, l_hide, l_set_current,
    l_current, l_set_start, l_set_resume_offset, l_sample, l_partition, l_clear_subset,
    l_filters_clear; cbn [run_listeners].
  repeat listener_off.
  change "!filters clear " with ("!filters " ++ "clear ").
  rewrite (prefix_ci_full_app "!filters " "clear " "!filters " _ eq_refl), Hclear, Hl.
  unfold h_filters. rewrite Hkey, Hval. cbn [negb].
  apply String.eqb_neq in Hadd, Hrem. rewrite Hadd, Hrem. reflexivity.
Qed.

Lemma filters_other_case_ignored_witness :
  prefix_ci "add" "ADD" = Some "" /\
  hear json_parse ("!filters " ++ "ADD" ++ " " ++ "types" ++ " " ++ "SEND") false S0 = (Ok tt, S0).
Proof.
  split; [reflexivity|].
  apply (filters_other_case_ignored json_parse "ADD" "types" "SEND" EVENT_TYPES S0);
    [reflexivity | reflexivity | left; reflexivity | discriminate | discriminate].
Defined.

(** *** Clearing a filter key that is not in [FILTER_KEYS] *)

Lemma split_dot_word k :
  forallb is_word (list_ascii_of_string k) = true -> split_dot k = [k].
Proof.
  unfold split_dot. induction k as [|c k IH]; simpl; [reflexivity|].
  intros H. apply Bool.andb_true_iff in H as [Hc Hk]. rewrite (IH Hk).
  destruct (Ascii.eqb c "."%char) eqn:E; [|reflexivity].
  apply Ascii.eqb_eq in E. subst. discriminate.
Qed.

Lemma split_dot_filters0 k :
  forallb is_word (list_ascii_of_string k) = true ->
  split_dot ("filters.0." ++ k) = ["filters"; "0"; k].
Proof.
  intros H. pose proof (split_dot_word k H) as Hk. unfold split_dot in *. simpl.
  rewrite Hk. reflexivity.
Qed.

Lemma jremove_cons2 k0 k1 r d :
  jremove (k0 :: k1 :: r) d =
  match d with
  | JObj kv =>
      match assoc_get k0 kv with
      | Some c => let (b, c') := jremove (k1 :: r) c in
                  if b then (true, JObj (assoc_set k0 c' kv)) else (false, d)
      | None => (false, d)
      end
  | JArr l =>
      match array_index k0 with
      | Some i =>
          match nth_error l i with
          | Some c => let (b, c') := jremove (k1 :: r) c in
                      if b then (true, JArr (list_put i c' l)) else (false, d)
          | None => (false, d)
          end
      | None => (false, d)
      end
  | _ => (false, d)
  end.
Proof. reflexivity. Qed.

Lemma jremove_obj_key p k d kv :
  jget p d = Some (JObj kv) -> assoc_mem k kv = true ->
  jremove (p ++ [k]) d = (true, jset p (JObj (assoc_del k kv)) d).
Proof.
  revert d. induction p as [|k0 ks IH]; intros d Hget Hmem.
  - simpl in Hget. injection Hget as ->. simpl. rewrite Hmem. reflexivity.
  - simpl app. destruct (ks ++ [k])%list as [|k1 r] eqn:E;
      [destruct ks; discriminate|].
    simpl in Hget. rewrite jremove_cons2.
    destruct d as [| | | |l|kv0]; simpl in Hget; try discriminate.
    + destruct (array_index k0) as [i|] eqn:Hi; [|discriminate].
      destruct (nth_error l i) as [c|] eqn:Hc; [|discriminate].
      rewrite (IH c Hget Hmem). simpl. rewrite Hi, Hc. reflexivity.
    + destruct (assoc_get k0 kv0) as [c|] eqn:Hc; [|discriminate].
      rewrite (IH c Hget Hmem). simpl. rewrite Hc. reflexivity.
Qed.

Lemma jremove_obj_absent p k d kv :
  jget p d = Some (JObj kv) -> assoc_mem k kv = false -> fst (jremove (p ++ [k]) d) = false.
Proof.
  revert d. induction p as [|k0 ks IH]; intros d Hget Hmem.
  - simpl in Hget. injection Hget as ->. simpl. rewrite Hmem. reflexivity.
  - simpl app. destruct (ks ++ [k])%list as [|k1 r] eqn:E;
      [destruct ks; discriminate|].
    simpl in Hget. rewrite jremove_cons2.
    destruct d as [| | | |l|kv0]; simpl in Hget; try discriminate.
    + destruct (array_index k0) as [i|]; [|reflexivity].
      destruct (nth_error l i) as [c|] eqn:Hc; [|discriminate].
      specialize (IH c Hget Hmem). destruct (jremove (k1 :: r) c) as [b c'].
      simpl in IH. subst. reflexivity.
    + destruct (assoc_get k0 kv0) as [c|] eqn:Hc; [|discriminate].
      specialize (IH c Hget Hmem). destruct (jremove (k1 :: r) c) as [b c'].
      simpl in IH. subst. reflexivity.
Qed.

Lemma jget_app p q d :
  jget (p ++ q)%list d = match jget p d with Some c => jget q c | None => None end.
Proof.
  revert d. induction p as [|a p IH]; intros d; simpl; [reflexivity|].
  destruct (child a d); [apply IH | reflexivity].
Qed.

Lemma h_filters_clear_present_run (k : string) (kv : list (string * jval)) (s : St)
  (Hunknown : set_has FILTER_KEYS k = false)
  (Hword : forallb is_word (list_ascii_of_string k) = true)
  (Hf0 : jget ["filters"; "0"] (doc s) = Some (JObj kv)) (Hmem : assoc_mem k kv = true) :
  h_filters_clear k false s =
  (Ok tt, emit_now (put_doc (jset ["filters"; "0"] (JObj (assoc_del k kv)) (doc s)) s)).
Proof.
  unfold h_filters_clear. rewrite Hunknown. unfold bind at 1, st_remove.
  rewrite split_dot_filters0 by exact Hword.
  change ["filters"; "0"; k] with (["filters"; "0"] ++ [k])%list.
  rewrite (jremove_obj_key ["filters"; "0"] k (doc s) kv Hf0 Hmem). reflexivity.
Qed.

Lemma h_filters_clear_absent_run (k : string) (kv : list (string * jval)) (s : St)
  (Hunknown : set_has FILTER_KEYS k = false)
  (Hword : forallb is_word (list_ascii_of_string k) = true)
  (Hf0 : jget ["filters"; "0"] (doc s) = Some (JObj kv)) (Hmem : assoc_mem k kv = false) :
  h_filters_clear k false s =
  (Ok tt, mkSt (doc s) (output s) (emitted s)
            (replies s ++ [sad ++ " no filters defined for " ++ k ++ ". available filters: "
                           ++ join ", " (filter (set_has FILTER_KEYS) (map fst kv))])).
Proof.
  unfold h_filters_clear. rewrite Hunknown. unfold bind at 1, st_remove.
  rewrite split_dot_filters0 by exact Hword.
  pose proof (jremove_obj_absent ["filters"; "0"] k (doc s) kv Hf0 Hmem) as Hb.
  change ["filters"; "0"; k] with (["filters"; "0"] ++ [k])%list.
  destruct (jremove (["filters"; "0"] ++ [k])%list (doc s)) as [b d'] eqn:Hr.
  simpl in Hb. subst b. apply jremove_false in Hr. subst d'. cbn [andb negb].
  unfold bind, st_get, put_doc. cbn [doc output emitted replies].
  change (split_dot "filters.0") with ["filters"; "0"]. rewrite Hf0. reflexivity.
Qed.

(** [!filters clear k] for a word [k] outside [FILTER_KEYS] that
    [filters[0]] (an object) has: the key is dropped from [filters[0]], one
    notification, no reply. *)
Theorem filters_clear_unknown_present (k : string) (kv : list (string * jval)) (s : St)
  (Hunknown : set_has FILTER_KEYS k = false)
  (Hword : forallb is_word (list_ascii_of_string k) = true)
  (Hf0 : jget ["filters"; "0"] (doc s) = Some (JObj kv)) (Hmem : assoc_mem k kv = true) :
  let s' := snd (h_filters_clear k false s) in
  doc s' = jset ["filters"; "0"] (JObj (assoc_del k kv)) (doc s) /\
  jget ["filters"; "0"; k] (doc s') = None /\
  output s' = output s /\ emitted s' = (emitted s ++ [doc s'])%list /\ replies s' = replies s.
Proof.
  cbv zeta. rewrite (h_filters_clear_present_run k kv s Hunknown Hword Hf0 Hmem).
  unfold emit_now, put_doc. cbn [snd doc output emitted replies].
  repeat split; try reflexivity.
  change ["filters"; "0"; k] with (["filters"; "0"] ++ [k])%list.
  rewrite jget_app, (jget_jset_same ["filters"; "0"] (doc s) (JObj kv)) by exact Hf0.
  simpl. pose proof (assoc_mem_del k kv) as Hd. unfold assoc_mem in Hd.
  destruct (assoc_get k (assoc_del k kv)); [discriminate | reflexivity].
Qed.

Lemma filters_clear_unknown_present_witness :
  let s := put_doc (jset ["filters"; "0"; "bogus"] (JArr []) (doc S0)) S0 in
  set_has FILTER_KEYS "bogus" = false /\
  jget ["filters"; "0"; "bogus"] (doc s) = Some (JArr []) /\
  jget ["filters"; "0"; "bogus"] (doc (snd (h_filters_clear "bogus" false s))) = None.
Proof.
  cbv zeta. split; [reflexivity|]. split; [vm_compute; reflexivity|].
  apply (filters_clear_unknown_present "bogus"
           [("device_types", JArr (map JStr DEVICE_TYPES)); ("types", JArr (map JStr EVENT_TYPES));
            ("bogus", JArr [])]);
    [reflexivity | reflexivity | vm_compute; reflexivity | reflexivity].
Defined.

(** [!filters clear k] for a word [k] outside [FILTER_KEYS] that the object
    [filters[0]] lacks: nothing changes, and the reply lists the keys of
    [filters[0]] that are in [FILTER_KEYS]. *)
Theorem filters_clear_unknown_absent (k : string) (kv : list (string * jval)) (s : St)
  (Hunknown : set_has FILTER_KEYS k = false)
  (Hword : forallb is_word (list_ascii_of_string k) = true)
  (Hf0 : jget ["filters"; "0"] (doc s) = Some (JObj kv)) (Hmem : assoc_mem k kv = false) :
  let s' := snd (h_filters_clear k false s) in
  doc s' = doc s /\ output s' = output s /\ emitted s' = emitted s /\
  replies s' = app (replies s) [sad ++ " no filters defined for " ++ k ++ ". available filters: "
                                ++ join ", " (filter (set_has FILTER_KEYS) (map fst kv))].
Proof.
  cbv zeta. rewrite (h_filters_clear_absent_run k kv s Hunknown Hword Hf0 Hmem).
  cbn [snd doc output emitted replies]. repeat split; reflexivity.
Qed.

Lemma filters_clear_unknown_absent_witness :
  set_has FILTER_KEYS "bogus" = false /\
  replies (snd (h_filters_clear "bogus" false S0)) =
  app (replies S0) [sad ++ " no filters defined for " ++ "bogus" ++ ". available filters: "
                    ++ join ", " (filter (set_has FILTER_KEYS) ["device_types"; "types"])].
Proof.
  split; [reflexivity|].
  apply (filters_clear_unknown_absent "bogus"
           [("device_types", JArr (map JStr DEVICE_TYPES)); ("types", JArr (map JStr EVENT_TYPES))]
           S0); [reflexivity | reflexivity | reflexivity | reflexivity].
Defined.

(** *** Whole messages *)

(** [!current] (with anything after it) only reports: the document as
    JSON, then the selector, and changes nothing. *)
Theorem current_read_only (r : string) (s : St) :
  step ("!current" ++ r) s =
  mkSt (doc s) (output s) (emitted s)
       (app (replies s) [sailboat ++ " " ++ stringify (doc s); eyes ++ " " ++ join ", " (output s)]).
Proof.
  unfold_listeners. rewrite prefix_ci_self. cbv beta iota.
  unfold h_current, bind, st_state, get_output, send, ret. cbn [doc output emitted replies].
  rewrite <- app_assoc. reflexivity.
Qed.

Lemma lower_bang c : lower c = "!"%char -> c = "!"%char.
Proof.
  destruct c as [b0 b1 b2 b3 b4 b5 b6 b7].
  destruct b0, b1, b2, b3, b4, b5, b6, b7; vm_compute; intros H;
    first [reflexivity | discriminate H].
Qed.

Lemma prefix_ci_bang lit c r : c <> "!"%char -> prefix_ci (String "!" lit) (String c r) = None.
Proof.
  intros Hc. cbn [prefix_ci]. replace (lower "!"%char) with "!"%char by reflexivity.
  destruct (Ascii.eqb "!" (lower c)) eqn:E; [|reflexivity].
  apply Ascii.eqb_eq in E. symmetry in E. apply lower_bang in E. contradiction.
Qed.

(** Every pattern is anchored at a leading [!]: a message that does not
    start with [!] runs no handler, whatever the JSON parser. *)
Theorem non_commands_ignored (parse : string -> parse_result) (msg : string) (s : St)
  (Hmsg : forall r, msg <> String "!" r) :
  hear parse msg false s = (Ok tt, s).
Proof.
  destruct msg as [|c r].
  - reflexivity.
  - assert (Hc : c <> "!"%char) by (intros ->; apply (Hmsg r); reflexivity).
    unfold hear, listeners, l_reset, l_set_output, l_show, l_hide, l_set_current,
      l_current, l_set_start, l_set_resume_offset, l_sample, l_partition, l_clear_subset,
      l_filters_clear, l_filters; cbn [run_listeners].
    repeat rewrite (prefix_ci_bang _ c r Hc). reflexivity.
Qed.

Lemma non_commands_ignored_witness :
  (forall r, "hello !reset" <> String "!" r) /\
  hear json_parse "hello !reset" false S0 = (Ok tt, S0).
Proof.
  assert (H : forall r, "hello !reset" <> String "!" r) by (intros r; discriminate).
  split; [exact H|]. apply (non_commands_ignored json_parse "hello !reset" S0 H).
Defined.

(** When none of the selected paths is defined on an event, every room is
    still sent a message, and the message is empty. *)
Theorem projection_nothing_selected (rooms output : list string) (data : jval)
  (Hnone : forall id, In id output -> lookup id data = None) :
  postToChannel rooms output data = map (fun room => (room, "")) rooms.
Proof.
  unfold postToChannel, postToChannel_message.
  replace (filter (fun id => is_defined (lookup id data)) output) with (@nil string).
  - reflexivity.
  - induction output as [|id output IH]; simpl; [reflexivity|].
    rewrite (Hnone id (or_introl eq_refl)). simpl.
    apply IH. intros id' H. apply Hnone. now right.
Qed.

Lemma projection_nothing_selected_witness :
  (forall id, In id DEFAULT_OUTPUT -> lookup id (JObj [("offset", JStr "1")]) = None) /\
  postToChannel ["general"; "ops"] DEFAULT_OUTPUT (JObj [("offset", JStr "1")]) =
  [("general", ""); ("ops", "")].
Proof.
  assert (H : forall id, In id DEFAULT_OUTPUT -> lookup id (JObj [("offset", JStr "1")]) = None).
  { intros id Hin. simpl in Hin.
    repeat destruct Hin as [<- | Hin]; try reflexivity. contradiction. }
  split; [exact H|]. exact (projection_nothing_selected ["general"; "ops"] _ _ H).
Defined.
